(** * bitmap.hpp: an owning, row-major 2D container

    A shallow embedding of [include/bitmap/bitmap.hpp] (namespace [bitmap],
    class template [bitmap<ValueType>]) and the properties of its
    constructors, [resize], checked element access, [data_pos] and
    [subbitmap].

    Conventions.
    - [std::size_t] is a 64-bit unsigned integer.  It is embedded in [N]
      (non-negative by type); every arithmetic operation of the source that
      can wrap around is written with [wrap].
    - [std::vector<value_type>] is a [list A]; an index into it is a [nat].
    - A member function that can throw, or whose behaviour is undefined on
      some inputs (vector subscript or [std::copy] out of bounds), returns an
      [outcome].
    - A vector cannot hold more than [max_size()] elements, a limit that
      depends on the element type: asking for more throws
      [std::length_error]. Below that limit memory is taken to be available
      (no [std::bad_alloc]). *)

From stdpp Require Import base numbers option list gmap.

Local Open Scope N_scope.

(** ** Machine integers *)

Definition size_t_bits : N := 64.
Definition SIZE_MAX : N := 2 ^ size_t_bits - 1.

(** Reduction modulo [2^64]: the value of an unsigned expression. *)
Definition wrap (n : N) : N := n mod 2 ^ size_t_bits.

(** [a - b] on [std::size_t]. *)
Definition wsub (a b : N) : N := wrap (a + 2 ^ size_t_bits - wrap b).

(** ** Exceptions and undefined behaviour *)

Inductive exception : Set :=
| out_of_range   (* std::out_of_range *)
| logic_error    (* std::logic_error  *)
| length_error.  (* std::length_error *)


Inductive outcome (T : Type) : Type :=
| Ok (r : T)
| Throw (e : exception)
| Undefined.
Arguments Ok {T} r.
Arguments Throw {T} e.
Arguments Undefined {T}.

#[global] Instance outcome_ret : MRet outcome := @Ok.
#[global] Instance outcome_bind : MBind outcome := λ T U f m,
  match m with
  | Ok r => f r
  | Throw e => Throw e
  | Undefined => Undefined
  end.

(** ** The element type

    What the class needs to know of [ValueType]: the result of
    [std::vector<ValueType>::max_size()], a [std::size_t]. *)

Class ValueType (A : Type) : Type := {
  max_size : N;
  max_size_representable : max_size ≤ SIZE_MAX
}.

(** ** The geometric collaborators ([point.hpp], [size.hpp], [rect.hpp]) *)

Module point.
(** Modelled from the spec: [point<std::size_t>] of the absent header
    [point.hpp]: "two non-negative integral coordinates (x, y)". *)
Record t : Set := mk { x : N; y : N }.
End point.

Module size.
(** Modelled from the spec: [size<std::size_t>] of the absent header
    [size.hpp]: "two non-negative integral dimensions (width, height)". *)
Record t : Set := mk { width : N; height : N }.

(** Modelled from the spec: [size::point_count] of the absent header:
    "point_count() = width * height", computed on [std::size_t]. *)
Definition point_count (s : t) : N := wrap (width s * height s).

(** Modelled from the spec: [size::is_positive] of the absent header:
    "the source's positivity check on Size permits any non-negative
    dimensions (including zero)". *)
Definition is_positive (s : t) : bool :=
  (0 <=? width s) && (0 <=? height s).
End size.

Module rect.
(** Modelled from the spec: [rect<std::size_t, std::size_t>] of the absent
    header [rect.hpp]: "a Size plus a Point giving the top-left corner". *)
Record t : Set := mk { pos : point.t; size : size.t }.

Definition x (r : t) : N := point.x (pos r).
Definition y (r : t) : N := point.y (pos r).
Definition width (r : t) : N := size.width (size r).
Definition height (r : t) : N := size.height (size r).
End rect.

(** ** class bitmap *)

Module bitmap.
Section bitmap.
Context {A : Type} `{!ValueType A}.

(** The two data members, [size_] and [data_]. *)
Record t : Type := mk { size_ : size.t; data_ : list A }.

(** [throw_if_size_is_negative] *)
Definition throw_if_size_is_negative (s : size.t) : outcome unit :=
  if negb (size.is_positive s) then Throw out_of_range else Ok ().

(** [bitmap() = default]: both members are default-constructed.
    Modelled from the spec: the default constructor of [size] in the absent
    header [size.hpp]: "Grid(): width=0, height=0, empty storage". *)
Definition ctor_default : t := mk (size.mk 0 0) [].

(** The vector constructor [std::vector(n, value)]: [n] copies of [value],
    or [std::length_error] when [n] exceeds [max_size()]. *)
Definition vector_fill (n : N) (value : A) : outcome (list A) :=
  if decide (max_size < n) then Throw length_error
  else Ok (replicate (N.to_nat n) value).

(** [bitmap(size_type const& size, value_type const& value)]: the members
    are initialised, [size_] and then [data_], before the body runs. *)
Definition ctor_fill (s : size.t) (value : A) : outcome t :=
  let size_ := s in
  data_ ← vector_fill (size.point_count size_) value;
  throw_if_size_is_negative size_ ;;
  Ok (mk size_ data_).

(** [bitmap(size_type const& size, InputIterator first, InputIterator last)];
    the range [first, last) is the list [range]. *)
Definition ctor_range (s : size.t) (range : list A) : outcome t :=
  let size_ := s in
  let data_ := range in
  throw_if_size_is_negative size_ ;;
  if negb (N.of_nat (length data_) =? size.point_count size_)
  then Throw logic_error
  else Ok (mk size_ data_).

(** [bitmap(std::size_t width, std::size_t height, value_type const& value)] *)
Definition ctor_wh (width height : N) (value : A) : outcome t :=
  let size_ := size.mk width height in
  data_ ← vector_fill (size.point_count size_) value;
  throw_if_size_is_negative size_ ;;
  Ok (mk size_ data_).

(** [width()], [height()], [size()], [point_count()] *)
Definition width (b : t) : N := size.width (size_ b).
Definition height (b : t) : N := size.height (size_ b).
Definition size (b : t) : size.t := size_ b.
Definition point_count (b : t) : N := wrap (width b * height b).

(** [begin()] and [end()]: an iterator is a position in [data_]. *)
Definition begin (b : t) : nat := 0%nat.
Definition end_ (b : t) : nat := length (data_ b).

(** [for (it = first; it != last; ++it) out.push_back( *it )]. The fuel
    bounds the number of increments. *)
Fixpoint collect (b : t) (fuel : nat) (it last : nat) : option (list A) :=
  if decide (it = last) then Some []
  else match fuel with
       | O => None
       | S fuel' =>
           v ← data_ b !! it;
           rest ← collect b fuel' (S it) last;
           Some (v :: rest)
       end.

Definition traverse (b : t) : option (list A) :=
  collect b (length (data_ b)) (begin b) (end_ b).

(** [rbegin()] and [rend()]: a reverse iterator holds the position one past
    the element it designates ([rbegin()] wraps [end()], [rend()] wraps
    [begin()]). *)
Definition rbegin (b : t) : nat := length (data_ b).
Definition rend (b : t) : nat := 0%nat.

(** The same loop over reverse iterators: [*it] reads the element before
    the held position and [++it] moves the position one down; moving below
    the beginning of the vector is undefined ([None]). *)
Fixpoint rcollect (b : t) (fuel : nat) (it last : nat) : option (list A) :=
  if decide (it = last) then Some []
  else match fuel, it with
       | S fuel', S it' =>
           v ← data_ b !! it';
           rest ← rcollect b fuel' it' last;
           Some (v :: rest)
       | _, _ => None
       end.

Definition rtraverse (b : t) : option (list A) :=
  rcollect b (length (data_ b)) (rbegin b) (rend b).

(** The elements of a vector after [std::vector::resize(n, value)]: the
    first [n] elements are kept and copies of [value] are appended up to
    length [n]. *)
Definition vector_resize (d : list A) (n : nat) (value : A) : list A :=
  take n d ++ replicate (n - length d) value.

(** [std::vector::resize(n, value)]: growing beyond [max_size()] throws
    [std::length_error] and leaves the vector as it was; shrinking never
    throws. *)
Definition vector_resize_to (d : list A) (n : N) (value : A)
  : outcome (list A) :=
  if decide (N.of_nat (length d) < n ∧ max_size < n) then Throw length_error
  else Ok (vector_resize d (N.to_nat n) value).

(** [resize(size_type const& size, value_type const& value)] *)
Definition resize (b : t) (s : size.t) (value : A) : outcome t :=
  throw_if_size_is_negative s ;;
  data_ ← vector_resize_to (data_ b) (size.point_count s) value;
  Ok (mk s data_).

(** [resize(std::size_t width, std::size_t height, value_type const& value)] *)
Definition resize_wh (b : t) (width height : N) (value : A) : outcome t :=
  resize b (size.mk width height) value.

(** [data_pos(point_type const& point)] *)
Definition data_pos (b : t) (p : point.t) : N :=
  wrap (wrap (point.y p * width b) + point.x p).

(** [data_pos(std::size_t x, std::size_t y)] *)
Definition data_pos_xy (b : t) (x y : N) : N := data_pos b (point.mk x y).

(** [is_point_in_bitmap(image, point)] *)
Definition is_point_in_bitmap (image : t) (p : point.t) : bool :=
  if (point.x p <? 0) || (width image <=? point.x p) ||
     (point.y p <? 0) || (height image <=? point.y p)
  then false
  else true.

(** [throw_if_out_of_range(point)]; [debug] tells whether [DEBUG] is
    defined. *)
Definition throw_if_out_of_range (debug : bool) (b : t) (p : point.t)
  : outcome unit :=
  if debug then
    if negb (is_point_in_bitmap b p) then Throw out_of_range else Ok ()
  else Ok ().

(** [do_point(point)]: [data_[data_pos(point)]]. The reference returned is
    the position of the element in [data_]; subscripting a vector out of
    its bounds is undefined. *)
Definition do_point (b : t) (p : point.t) : outcome nat :=
  let i := N.to_nat (data_pos b p) in
  if decide (i < length (data_ b))%nat then Ok i else Undefined.

(** [operator()(point_type const& point)] *)
Definition call (debug : bool) (b : t) (p : point.t) : outcome nat :=
  throw_if_out_of_range debug b p ;;
  do_point b p.

(** [operator()(std::size_t x, std::size_t y)] *)
Definition call_xy (debug : bool) (b : t) (x y : N) : outcome nat :=
  call debug b (point.mk x y).

(** Reading and writing through a reference. *)
Definition load (b : t) (ref : nat) : option A := data_ b !! ref.
Definition store (b : t) (ref : nat) (value : A) : t :=
  mk (size_ b) (<[ref := value]> (data_ b)).

(** [value = b(point)] and [b(point) = value] *)
Definition get (debug : bool) (b : t) (p : point.t) : outcome A :=
  ref ← call debug b p;
  match load b ref with Some v => Ok v | None => Undefined end.
Definition set (debug : bool) (b : t) (p : point.t) (value : A) : outcome t :=
  ref ← call debug b p;
  Ok (store b ref value).

(** [data() + k]: a pointer [k] elements into the buffer of [d] (null when
    [d] is empty). A pointer may not be moved past the end of its buffer. *)
Definition ptr_add (d : list A) (k : N) : outcome nat :=
  if decide (k ≤ N.of_nat (length d)) then Ok (N.to_nat k) else Undefined.

(** [std::copy(first, first + n, out)]: [first] is a position in [src] and
    [out] one in [dst]; the elements are assigned one by one, and reading or
    writing past the end of a buffer is undefined. *)
Fixpoint std_copy (src : list A) (first n : nat) (dst : list A) (out : nat)
  : outcome (list A) :=
  match n with
  | O => Ok dst
  | S n' =>
      match src !! first with
      | Some v =>
          if decide (out < length dst)%nat
          then std_copy src (S first) n' (<[out := v]> dst) (S out)
          else Undefined
      | None => Undefined
      end
  end.

(** The loop of [subbitmap], [for(std::size_t y = 0; y < y_end; ++y)], from
    the current [y] on; [count] is the number of iterations left,
    [y_end - y]. *)
Fixpoint copy_rows (b : t) (x_end : N) (count : nat) (y : N) (result : t)
  : outcome t :=
  match count with
  | O => Ok result
  | S count' =>
      in_offset ← ptr_add (data_ b) (wrap (y * width b));
      out_offset ← ptr_add (data_ result) (wrap (y * width result));
      d ← std_copy (data_ b) in_offset (N.to_nat x_end)
                   (data_ result) out_offset;
      copy_rows b x_end count' (wrap (y + 1)) (mk (size_ result) d)
  end.

(** [subbitmap(rect const& rect, value_type const& value)] *)
Definition subbitmap (b : t) (r : rect.t) (value : A) : outcome t :=
  result ← ctor_fill (rect.size r) value;
  if (width b <=? rect.x r) || (height b <=? rect.y r) then Ok result
  else
    let x_end := N.min (rect.width r) (wsub (width b) (rect.x r)) in
    let y_end := N.min (rect.height r) (wsub (height b) (rect.y r)) in
    copy_rows b x_end (N.to_nat y_end) 0 result.

(** The storage invariant of the class: [data_] holds [point_count()]
    elements. *)
Definition storage_inv (b : t) : Prop :=
  N.of_nat (length (data_ b)) = point_count b.

(** The invariant without wrap-around: the number of points is representable
    and [data_] holds exactly [width * height] elements. *)
Definition well_formed (b : t) : Prop :=
  N.of_nat (length (data_ b)) = width b * height b ∧
  width b * height b ≤ SIZE_MAX.

(** The grids that the public interface produces. *)
Inductive reachable : t → Prop :=
| reach_default :
    reachable ctor_default
| reach_fill s value b :
    ctor_fill s value = Ok b → reachable b
| reach_range s range b :
    ctor_range s range = Ok b → reachable b
| reach_wh w h value b :
    ctor_wh w h value = Ok b → reachable b
| reach_resize b0 s value b :
    reachable b0 → resize b0 s value = Ok b → reachable b
| reach_resize_wh b0 w h value b :
    reachable b0 → resize_wh b0 w h value = Ok b → reachable b
| reach_set debug b0 p value b :
    reachable b0 → set debug b0 p value = Ok b → reachable b
| reach_subbitmap b0 r value b :
    reachable b0 → subbitmap b0 r value = Ok b → reachable b.

(** The element at column [x] of row [y] of a list of rows. *)
Definition cell (rows : list (list A)) (x y : N) : option A :=
  row ← rows !! N.to_nat y; row !! N.to_nat x.

(** [rows] is the grid [b] row by row. *)
Definition row_major (b : t) (rows : list (list A)) : Prop :=
  data_ b = concat rows ∧
  N.of_nat (length rows) = height b ∧
  Forall (λ row, N.of_nat (length row) = width b) rows.

End bitmap.
Arguments t : clear implicits.
End bitmap.

(** ** Objects in memory

    The same class with the storage made explicit: the heap maps the address
    of a vector's buffer to its contents, a [bitmap] object holds its [size_]
    and the address of the buffer its [data_] owns, and [value_type*] is a
    buffer address with a position (or null). *)

Abbreviation heap A := (gmap positive (list A)).

Module mem.
(** The address of a buffer. *)
Abbreviation addr := positive.

Section mem.
Context {A : Type} `{!ValueType A}.

(** An object: [size_] and the buffer that [data_] owns. *)
Record t : Set := mk { size_ : size.t; data_ : addr }.

(** [value_type*]: null, or a position in a buffer. *)

Record ptr : Set := mk_ptr { base : option addr; index : nat }.
Definition null : ptr := mk_ptr None 0.

(** The buffer a pointer points into. *)
Definition buffer (h : heap A) (p : ptr) : list A :=
  match base p with
  | Some a => default [] (h !! a)
  | None => []
  end.

(** The value of the object [b] in the heap [h]. *)
Definition view (h : heap A) (b : t) : bitmap.t A :=
  bitmap.mk (size_ b) (default [] (h !! data_ b)).

Definition width (b : t) : N := size.width (size_ b).
Definition height (b : t) : N := size.height (size_ b).

(** A new buffer holding the elements [d]. *)
Definition alloc (h : heap A) (d : list A) : heap A * addr :=
  let a := fresh (dom h) in (<[a := d]> h, a).

(** [bitmap(size_type const& size, value_type const& value)]: the vector
    constructor [data_(n, value)] throws [std::length_error] when [n]
    exceeds [max_size()], and otherwise fills a new buffer. *)
Definition ctor_fill (h : heap A) (s : size.t) (value : A) : outcome (heap A * t) :=
  let size_ := s in
  d ← bitmap.vector_fill (size.point_count size_) value;
  let '(h', data_) := alloc h d in
  bitmap.throw_if_size_is_negative size_ ;;
  Ok (h', mk size_ data_).

(** [bitmap(bitmap const&) = default]: the members are copied one by one;
    the copy constructor of the vector allocates a buffer holding the same
    elements. *)
Definition ctor_copy (h : heap A) (other : t) : heap A * t :=
  let size_ := size_ other in
  let '(h', data_) := alloc h (default [] (h !! data_ other)) in
  (h', mk size_ data_).

(** [data()]: [data_.empty() ? 0 : &data_[0]] *)
Definition data (h : heap A) (b : t) : ptr :=
  match h !! data_ b with
  | Some (_ :: _) => mk_ptr (Some (data_ b)) 0
  | _ => null
  end.

(** [p + k] *)
Definition ptr_add (h : heap A) (p : ptr) (k : N) : outcome ptr :=
  if decide (N.of_nat (index p) + k ≤ N.of_nat (length (buffer h p)))
  then Ok (mk_ptr (base p) (index p + N.to_nat k))
  else Undefined.

(** [*p] as an rvalue, and [*p = value]. *)
Definition load (h : heap A) (p : ptr) : outcome A :=
  match buffer h p !! index p with
  | Some v => Ok v
  | None => Undefined
  end.

Definition store (h : heap A) (p : ptr) (value : A) : outcome (heap A) :=
  match base p with
  | Some a =>
      match h !! a with
      | Some d =>
          if decide (index p < length d)%nat
          then Ok (<[a := <[index p := value]> d]> h)
          else Undefined
      | None => Undefined
      end
  | None => Undefined
  end.

(** [++p] *)
Definition next (p : ptr) : ptr := mk_ptr (base p) (S (index p)).

(** [std::copy(first, first + n, out)] *)
Fixpoint std_copy (h : heap A) (first : ptr) (n : nat) (out : ptr)
  : outcome (heap A) :=
  match n with
  | O => Ok h
  | S n' =>
      v ← load h first;
      h' ← store h out v;
      std_copy h' (next first) n' (next out)
  end.

(** The loop of [subbitmap]. *)
Fixpoint copy_rows (h : heap A) (b : t) (x_end : N) (count : nat) (y : N)
    (result : t) : outcome (heap A) :=
  match count with
  | O => Ok h
  | S count' =>
      in_offset ← ptr_add h (data h b) (wrap (y * width b));
      out_offset ← ptr_add h (data h result) (wrap (y * width result));
      h' ← std_copy h in_offset (N.to_nat x_end) out_offset;
      copy_rows h' b x_end count' (wrap (y + 1)) result
  end.

(** [subbitmap(rect const& rect, value_type const& value)] *)
Definition subbitmap (h : heap A) (b : t) (r : rect.t) (value : A)
  : outcome (heap A * t) :=
  '(h1, result) ← ctor_fill h (rect.size r) value;
  if (width b <=? rect.x r) || (height b <=? rect.y r) then Ok (h1, result)
  else
    let x_end := N.min (rect.width r) (wsub (width b) (rect.x r)) in
    let y_end := N.min (rect.height r) (wsub (height b) (rect.y r)) in
    h2 ← copy_rows h1 b x_end (N.to_nat y_end) 0 result;
    Ok (h2, result).

(** [operator()(point_type const& point)]: a reference into the buffer. *)
Definition call (debug : bool) (h : heap A) (b : t) (p : point.t) : outcome ptr :=
  bitmap.throw_if_out_of_range debug (view h b) p ;;
  let i := N.to_nat (bitmap.data_pos (view h b) p) in
  if decide (i < length (bitmap.data_ (view h b)))%nat
  then Ok (mk_ptr (Some (data_ b)) i)
  else Undefined.

(** [b(point) = value] *)
Definition set (debug : bool) (h : heap A) (b : t) (p : point.t) (value : A)
  : outcome (heap A) :=
  ref ← call debug h b p;
  store h ref value.

End mem.
End mem.

(** An element type of four bytes, such as [int]: [max_size()] is
    [PTRDIFF_MAX / 4]. It is the element type of the examples, written with
    the integers of [Z]. *)
Lemma int_max_size_representable : 2 ^ 61 - 1 ≤ SIZE_MAX.
Proof. by vm_compute. Qed.

#[global] Instance int_value_type : ValueType Z :=
  {| max_size := 2 ^ 61 - 1;
     max_size_representable := int_max_size_representable |}.

(** * Properties *)

(** ** Arithmetic of [std::size_t] *)

Lemma wrap_small (n : N) : n ≤ SIZE_MAX → wrap n = n.
Proof.
  unfold wrap, SIZE_MAX. intros Hn. apply N.mod_small.
  assert (0 < 2 ^ size_t_bits) by (apply N.neq_0_lt_0, N.pow_nonzero; lia).
  lia.
Qed.

Lemma wrap_le_max (n : N) : wrap n ≤ SIZE_MAX.
Proof.
  unfold wrap, SIZE_MAX.
  assert (2 ^ size_t_bits ≠ 0) as Hnz by (apply N.pow_nonzero; lia).
  pose proof (N.mod_upper_bound n _ Hnz). lia.
Qed.

Lemma wsub_small (a b : N) : b ≤ a → a ≤ SIZE_MAX → wsub a b = a - b.
Proof.
  intros Hba Ha. unfold wsub.
  rewrite (wrap_small b) by lia.
  unfold wrap.
  replace (a + 2 ^ size_t_bits - b) with ((a - b) + 1 * 2 ^ size_t_bits) by lia.
  rewrite N.Div0.mod_add. apply wrap_small. lia.
Qed.

(** ** The outcome monad *)

Section outcome.
Context {T U : Type}.

Lemma bind_Ok_inv (m : outcome T) (f : T → outcome U) (u : U) :
  m ≫= f = Ok u → ∃ r, m = Ok r ∧ f r = Ok u.
Proof. destruct m as [r| |]; simpl; [eauto | discriminate..]. Qed.


End outcome.

(** ** The validity gate *)

Lemma is_positive_true (s : size.t) : size.is_positive s = true.
Proof.
  unfold size.is_positive.
  apply andb_true_intro; split; apply N.leb_le; lia.
Qed.

Section gate.
Context {A : Type} `{!ValueType A}.
Implicit Types (b g : bitmap.t A) (s : size.t) (v : A).

Lemma throw_if_size_is_negative_positive s :
  size.is_positive s = true → bitmap.throw_if_size_is_negative s = Ok ().
Proof. unfold bitmap.throw_if_size_is_negative. by intros ->. Qed.

Lemma throw_if_size_is_negative_cases s :
  bitmap.throw_if_size_is_negative s = Ok () ∨
  bitmap.throw_if_size_is_negative s = Throw out_of_range.
Proof.
  unfold bitmap.throw_if_size_is_negative.
  destruct (size.is_positive s); simpl; auto.
Qed.

Lemma max_size_le_SIZE_MAX (n : N) : n ≤ max_size → n ≤ SIZE_MAX.
Proof. pose proof max_size_representable. lia. Qed.

Lemma vector_fill_ok (n : N) v :
  n ≤ max_size → bitmap.vector_fill n v = Ok (replicate (N.to_nat n) v).
Proof. intros Hn. unfold bitmap.vector_fill. by rewrite decide_False by lia. Qed.

Lemma vector_fill_too_long (n : N) v :
  max_size < n → bitmap.vector_fill n v = Throw length_error.
Proof. intros Hn. unfold bitmap.vector_fill. by rewrite decide_True. Qed.

Lemma vector_fill_inv (n : N) v d :
  bitmap.vector_fill n v = Ok d →
  n ≤ max_size ∧ d = replicate (N.to_nat n) v.
Proof.
  unfold bitmap.vector_fill. case_decide; [discriminate|].
  intros [= <-]. split; [lia | done].
Qed.

Lemma vector_resize_to_ok (d : list A) (n : N) v :
  n ≤ max_size →
  bitmap.vector_resize_to d n v = Ok (bitmap.vector_resize d (N.to_nat n) v).
Proof.
  intros Hn. unfold bitmap.vector_resize_to. by rewrite decide_False by lia.
Qed.

Lemma vector_resize_to_inv (d : list A) (n : N) v d' :
  bitmap.vector_resize_to d n v = Ok d' →
  d' = bitmap.vector_resize d (N.to_nat n) v.
Proof.
  unfold bitmap.vector_resize_to. case_decide; [discriminate|]. by intros [= <-].
Qed.

Lemma ctor_fill_positive s v :
  size.is_positive s = true → size.point_count s ≤ max_size →
  bitmap.ctor_fill s v =
    Ok (bitmap.mk s (replicate (N.to_nat (size.point_count s)) v)).
Proof.
  intros Hs Hn. unfold bitmap.ctor_fill.
  rewrite (vector_fill_ok _ v Hn). simpl.
  by rewrite (throw_if_size_is_negative_positive s Hs).
Qed.

Lemma ctor_fill_too_long s v :
  max_size < size.point_count s → bitmap.ctor_fill s v = Throw length_error.
Proof.
  intros Hn. unfold bitmap.ctor_fill. by rewrite (vector_fill_too_long _ v Hn).
Qed.

Lemma ctor_fill_inv s v g :
  bitmap.ctor_fill s v = Ok g →
  g = bitmap.mk s (replicate (N.to_nat (size.point_count s)) v).
Proof.
  unfold bitmap.ctor_fill.
  intros (d & [_ ->]%vector_fill_inv & Hg)%bind_Ok_inv.
  destruct (throw_if_size_is_negative_cases s) as [Hs | Hs];
    rewrite Hs in Hg; simpl in Hg; congruence.
Qed.

Lemma ctor_fill_inv_max_size s v g :
  bitmap.ctor_fill s v = Ok g → size.point_count s ≤ max_size.
Proof.
  unfold bitmap.ctor_fill.
  by intros (d & [Hn _]%vector_fill_inv & _)%bind_Ok_inv.
Qed.

Lemma resize_positive g s v :
  size.is_positive s = true → size.point_count s ≤ max_size →
  bitmap.resize g s v =
    Ok (bitmap.mk s (bitmap.vector_resize (bitmap.data_ g)
                       (N.to_nat (size.point_count s)) v)).
Proof.
  intros Hs Hn. unfold bitmap.resize.
  rewrite (throw_if_size_is_negative_positive s Hs). simpl.
  by rewrite (vector_resize_to_ok _ _ v Hn).
Qed.

Lemma resize_inv g s v g' :
  bitmap.resize g s v = Ok g' →
  g' = bitmap.mk s (bitmap.vector_resize (bitmap.data_ g)
                      (N.to_nat (size.point_count s)) v).
Proof.
  unfold bitmap.resize.
  intros (_ & _ & (d & ->%vector_resize_to_inv & Hg)%bind_Ok_inv)%bind_Ok_inv.
  congruence.
Qed.

End gate.

(** ** [std::vector::resize] *)

Section vector_resize.
Context {A : Type} `{!ValueType A}.
Implicit Types (d : list A) (v : A) (n i : nat).

Lemma length_vector_resize d n v : length (bitmap.vector_resize d n v) = n.
Proof.
  unfold bitmap.vector_resize.
  rewrite length_app, length_take, length_replicate. lia.
Qed.

Lemma vector_resize_lookup_old d n v i :
  (i < n)%nat → (i < length d)%nat →
  bitmap.vector_resize d n v !! i = d !! i.
Proof.
  intros Hn Hd. unfold bitmap.vector_resize.
  rewrite lookup_app_l by (rewrite length_take; lia).
  by apply lookup_take_lt.
Qed.

Lemma vector_resize_lookup_new d n v i :
  (length d ≤ i)%nat → (i < n)%nat →
  bitmap.vector_resize d n v !! i = Some v.
Proof.
  intros Hd Hn. unfold bitmap.vector_resize.
  rewrite lookup_app_r by (rewrite length_take; lia).
  apply lookup_replicate_2. rewrite length_take. lia.
Qed.

Lemma vector_resize_Forall (P : A → Prop) d n v :
  Forall P d → P v → Forall P (bitmap.vector_resize d n v).
Proof.
  intros Hd Hv. unfold bitmap.vector_resize.
  apply Forall_app; split.
  - by apply Forall_take.
  - by apply Forall_replicate.
Qed.

End vector_resize.

(** ** [resize] *)

Section resize.
Context {A : Type} `{!ValueType A}.
Implicit Types (g : bitmap.t A) (s : size.t) (v : A).

(** C10. [resize] to a valid size [s] with fill value [v] keeps the elements
    at linear offsets below [min n m] ([n] the old point count, [m] the new
    one) and sets the elements at offsets [n .. m-1] to [v]. The vector can
    hold [m] elements ([m] is at most [max_size()]), so that the call
    completes. *)
Theorem resize_keeps_common_prefix g s v :
  size.is_positive s = true →
  size.point_count s ≤ max_size →
  bitmap.storage_inv g →
  ∃ g', bitmap.resize g s v = Ok g' ∧
    (∀ i, i < N.min (bitmap.point_count g) (size.point_count s) →
       ∃ e, bitmap.data_ g !! N.to_nat i = Some e ∧
            bitmap.data_ g' !! N.to_nat i = Some e) ∧
    (∀ i, bitmap.point_count g ≤ i → i < size.point_count s →
       bitmap.data_ g' !! N.to_nat i = Some v).
Proof.
  unfold bitmap.storage_inv. intros Hs Hmax Hlen.
  eexists. split; [by apply resize_positive|]. simpl.
  split.
  - intros i Hi.
    assert (N.to_nat i < length (bitmap.data_ g))%nat as Hold by lia.
    destruct (lookup_lt_is_Some_2 _ _ Hold) as [e He].
    exists e. split; [done|].
    rewrite vector_resize_lookup_old; [done | lia | done].
  - intros i Hn Hm. apply vector_resize_lookup_new; lia.
Qed.

(** C2, as the code has it. After [resize] to a valid size [s] with fill
    value [v] the grid has [s.point_count()] elements, every element at a
    linear offset that did not exist before equals [v], and all elements equal
    [v] when all the old ones did. The vector can hold [s.point_count()]
    elements (at most [max_size()]), so that the call completes. *)
Theorem resize_fills_new_cells g s v :
  size.is_positive s = true →
  size.point_count s ≤ max_size →
  ∃ g', bitmap.resize g s v = Ok g' ∧
    bitmap.size g' = s ∧
    bitmap.point_count g' = size.point_count s ∧
    N.of_nat (length (bitmap.data_ g')) = size.point_count s ∧
    (∀ i, (length (bitmap.data_ g) ≤ i)%nat →
          N.of_nat i < size.point_count s →
          bitmap.data_ g' !! i = Some v) ∧
    (Forall (λ e, e = v) (bitmap.data_ g) →
     Forall (λ e, e = v) (bitmap.data_ g')).
Proof.
  intros Hs Hmax. eexists. split; [by apply resize_positive|]. simpl.
  repeat split.
  - rewrite length_vector_resize. lia.
  - intros i Hold Hnew. apply vector_resize_lookup_new; lia.
  - intros Hall. by apply vector_resize_Forall.
Qed.

End resize.

Lemma resize_keeps_common_prefix_witness :
  ∃ g', bitmap.resize (bitmap.mk (size.mk 2 1) [7%Z; 8%Z]) (size.mk 3 1) 0%Z
        = Ok g' ∧
    (∀ i, i < N.min 2 3 →
       ∃ e, [7%Z; 8%Z] !! N.to_nat i = Some e ∧
            bitmap.data_ g' !! N.to_nat i = Some e) ∧
    (∀ i, 2 ≤ i → i < 3 → bitmap.data_ g' !! N.to_nat i = Some 0%Z).
Proof.
  apply (resize_keeps_common_prefix
           (bitmap.mk (size.mk 2 1) [7%Z; 8%Z]) (size.mk 3 1) 0%Z);
    [reflexivity | by vm_compute | reflexivity].
Defined.

Lemma resize_fills_new_cells_witness :
  ∃ g', bitmap.resize (bitmap.mk (size.mk 1 1) [7%Z]) (size.mk 2 1) 0%Z
        = Ok g' ∧
    bitmap.size g' = size.mk 2 1 ∧
    bitmap.point_count g' = 2 ∧
    N.of_nat (length (bitmap.data_ g')) = 2 ∧
    (∀ i, (1 ≤ i)%nat → N.of_nat i < 2 → bitmap.data_ g' !! i = Some 0%Z) ∧
    (Forall (λ e, e = 0%Z) [7%Z] →
     Forall (λ e, e = 0%Z) (bitmap.data_ g')).
Proof.
  apply (resize_fills_new_cells
           (bitmap.mk (size.mk 1 1) [7%Z]) (size.mk 2 1) 0%Z);
    [reflexivity | by vm_compute].
Defined.

(** C2, as stated, fails: a 1x1 grid holding 7, resized to 2x1 with fill
    value 0, still holds 7 at offset 0. *)
Lemma resize_not_destructive :
  bitmap.ctor_fill (size.mk 1 1) 7%Z = Ok (bitmap.mk (size.mk 1 1) [7%Z]) ∧
  size.is_positive (size.mk 2 1) = true ∧
  bitmap.resize (bitmap.mk (size.mk 1 1) [7%Z]) (size.mk 2 1) 0%Z
    = Ok (bitmap.mk (size.mk 2 1) [7%Z; 0%Z]) ∧
  ¬ Forall (λ e, e = 0%Z) (bitmap.data_ (bitmap.mk (size.mk 2 1) [7%Z; 0%Z])).
Proof.
  repeat split; try reflexivity.
  intros Hall. apply Forall_cons in Hall as [Hhd _]. discriminate Hhd.
Qed.

(** ** Construction from a sequence *)

Section ctor_range.
Context {A : Type} `{!ValueType A}.
Implicit Types (g : bitmap.t A) (s : size.t) (v : A) (l : list A).

Lemma collect_drop g (fuel it : nat) :
  (it + fuel = length (bitmap.data_ g))%nat →
  bitmap.collect g fuel it (length (bitmap.data_ g))
  = Some (drop it (bitmap.data_ g)).
Proof.
  revert it. induction fuel as [|fuel IH]; intros it Hit; simpl.
  - rewrite decide_True by lia. by rewrite drop_ge by lia.
  - rewrite decide_False by lia.
    destruct (lookup_lt_is_Some_2 (bitmap.data_ g) it) as [e He]; [lia|].
    rewrite He. simpl. rewrite IH by lia. simpl.
    by rewrite (drop_S _ _ _ He).
Qed.

Lemma traverse_data g : bitmap.traverse g = Some (bitmap.data_ g).
Proof.
  unfold bitmap.traverse, bitmap.begin, bitmap.end_.
  by rewrite collect_drop.
Qed.



End ctor_range.


(** ** [subbitmap]: shape of the result *)

Section subbitmap_shape.
Context {A : Type} `{!ValueType A}.
Implicit Types (b g result : bitmap.t A) (s : size.t) (v : A) (d src dst : list A).



Lemma std_copy_length src first n dst out d :
  bitmap.std_copy src first n dst out = Ok d → length d = length dst.
Proof.
  revert first dst out. induction n as [|n IH]; intros first dst out; simpl.
  - by intros [= <-].
  - destruct (src !! first); [|discriminate].
    case_decide; [|discriminate].
    intros Hd%IH. by rewrite length_insert in Hd.
Qed.


Lemma copy_rows_shape g x_end count y result res :
  bitmap.copy_rows g x_end count y result = Ok res →
  bitmap.size_ res = bitmap.size_ result ∧
  length (bitmap.data_ res) = length (bitmap.data_ result).
Proof.
  revert y result. induction count as [|count IH]; intros y result; simpl.
  - by intros [= <-].
  - intros (i & _ & (o & _ & (d & Hd & Hr)%bind_Ok_inv)%bind_Ok_inv)%bind_Ok_inv.
    apply IH in Hr as [-> ->]. simpl.
    split; [done|]. by apply std_copy_length in Hd.
Qed.

Lemma subbitmap_shape g r v res :
  bitmap.subbitmap g r v = Ok res →
  bitmap.size_ res = rect.size r ∧
  length (bitmap.data_ res) = N.to_nat (size.point_count (rect.size r)).
Proof.
  unfold bitmap.subbitmap.
  intros (result & ->%ctor_fill_inv & Hres)%bind_Ok_inv.
  destruct (_ || _).
  - injection Hres as <-. simpl. by rewrite length_replicate.
  - apply copy_rows_shape in Hres as [-> ->]. simpl.
    by rewrite length_replicate.
Qed.

Lemma subbitmap_outside g r v :
  size.point_count (rect.size r) ≤ max_size →
  bitmap.width g ≤ rect.x r ∨ bitmap.height g ≤ rect.y r →
  bitmap.subbitmap g r v =
    Ok (bitmap.mk (rect.size r)
          (replicate (N.to_nat (size.point_count (rect.size r))) v)).
Proof.
  intros Hmax Hout. unfold bitmap.subbitmap.
  rewrite (ctor_fill_positive _ v (is_positive_true (rect.size r)) Hmax). simpl.
  assert ((bitmap.width g <=? rect.x r) || (bitmap.height g <=? rect.y r) = true)
    as ->; [|done].
  apply orb_true_iff. destruct Hout; [left | right]; by apply N.leb_le.
Qed.

Lemma subbitmap_too_long g r v :
  max_size < size.point_count (rect.size r) →
  bitmap.subbitmap g r v = Throw length_error.
Proof.
  intros Hmax. unfold bitmap.subbitmap.
  by rewrite (ctor_fill_too_long _ v Hmax).
Qed.

End subbitmap_shape.

(** ** Which operations throw [std::logic_error] *)

Section logic_error.
Context {A : Type} `{!ValueType A}.
Implicit Types (g : bitmap.t A) (s : size.t) (v : A) (l : list A).










End logic_error.



(** ** The storage invariant *)

Section storage.
Context {A : Type} `{!ValueType A}.
Implicit Types (g b : bitmap.t A) (s : size.t) (v : A) (l : list A).

Lemma storage_inv_fill s v :
  bitmap.storage_inv
    (bitmap.mk s (replicate (N.to_nat (size.point_count s)) v)).
Proof.
  unfold bitmap.storage_inv. simpl. rewrite length_replicate.
  by rewrite N2Nat.id.
Qed.

Lemma storage_inv_shape b0 b :
  bitmap.size_ b = bitmap.size_ b0 →
  length (bitmap.data_ b) = length (bitmap.data_ b0) →
  bitmap.storage_inv b0 → bitmap.storage_inv b.
Proof.
  unfold bitmap.storage_inv, bitmap.point_count, bitmap.width, bitmap.height.
  by intros -> ->.
Qed.

Lemma reachable_storage_inv b : bitmap.reachable b → bitmap.storage_inv b.
Proof.
  induction 1 as [ | s v b Hb | s l b Hb | w h v b Hb
                   | b0 s v b _ _ Hb | b0 w h v b _ _ Hb
                   | debug b0 p v b _ IH Hb | b0 r v b _ _ Hb ].
  - reflexivity.
  - apply ctor_fill_inv in Hb as ->. apply storage_inv_fill.
  - unfold bitmap.ctor_range in Hb.
    apply bind_Ok_inv in Hb as (_ & _ & Hb).
    destruct (N.eqb_spec (N.of_nat (length l)) (size.point_count s)) as [Hl|];
      simpl in Hb; [|discriminate].
    injection Hb as <-. exact Hl.
  - apply (ctor_fill_inv (size.mk w h)) in Hb as ->. apply storage_inv_fill.
  - apply resize_inv in Hb as ->.
    unfold bitmap.storage_inv. simpl. rewrite length_vector_resize.
    by rewrite N2Nat.id.
  - apply resize_inv in Hb as ->.
    unfold bitmap.storage_inv. simpl. rewrite length_vector_resize.
    by rewrite N2Nat.id.
  - unfold bitmap.set in Hb.
    apply bind_Ok_inv in Hb as (ref & _ & [= <-]).
    apply (storage_inv_shape b0); [done | | done].
    simpl. apply length_insert.
  - apply subbitmap_shape in Hb as [Hsz Hlen].
    unfold bitmap.storage_inv, bitmap.point_count, bitmap.width, bitmap.height.
    rewrite Hlen, Hsz. by rewrite N2Nat.id.
Qed.

Lemma well_formed_storage_inv b : bitmap.well_formed b → bitmap.storage_inv b.
Proof.
  intros [Hlen Hfit]. unfold bitmap.storage_inv, bitmap.point_count.
  by rewrite wrap_small.
Qed.

Lemma reachable_well_formed b :
  bitmap.reachable b → bitmap.width b * bitmap.height b ≤ SIZE_MAX →
  bitmap.well_formed b.
Proof.
  intros Hb%reachable_storage_inv Hfit. split; [|done].
  unfold bitmap.storage_inv, bitmap.point_count in Hb.
  by rewrite wrap_small in Hb.
Qed.

(** C8. For a grid produced by the public interface, the length of [data_]
    equals [width() * height()] (computed on [std::size_t]), which is
    [point_count()] and the point count of [size()]; it is the exact product
    whenever that is representable. *)
Theorem reachable_length b :
  bitmap.reachable b →
  N.of_nat (length (bitmap.data_ b)) = wrap (bitmap.width b * bitmap.height b) ∧
  wrap (bitmap.width b * bitmap.height b) = bitmap.point_count b ∧
  bitmap.point_count b = size.point_count (bitmap.size b) ∧
  (bitmap.width b * bitmap.height b ≤ SIZE_MAX →
   N.of_nat (length (bitmap.data_ b)) = bitmap.width b * bitmap.height b).
Proof.
  intros Hb%reachable_storage_inv. unfold bitmap.storage_inv in Hb.
  split; [exact Hb|]. split; [done|]. split; [done|].
  intros Hfit. rewrite Hb. unfold bitmap.point_count. by apply wrap_small.
Qed.

End storage.

Lemma reachable_length_witness :
  N.of_nat (length [0%Z; 5%Z; 0%Z; 0%Z]) = wrap (2 * 2).
Proof.
  assert (bitmap.reachable (bitmap.mk (size.mk 2 2) [0%Z; 5%Z; 0%Z; 0%Z]))
    as Hreach.
  { apply (bitmap.reach_set false (bitmap.mk (size.mk 2 2) [0%Z; 0%Z; 0%Z; 0%Z])
             (point.mk 1 0) 5%Z); [|reflexivity].
    apply (bitmap.reach_fill (size.mk 2 2) 0%Z). reflexivity. }
  exact (proj1 (reachable_length _ Hreach)).
Defined.

(** ** [data_pos] and the row-major layout *)

Section layout.
Context {A : Type} `{!ValueType A}.
Implicit Types (g : bitmap.t A) (p : point.t) (x y : N).

Lemma data_pos_wrap g p :
  bitmap.data_pos g p = wrap (point.y p * bitmap.width g + point.x p).
Proof.
  unfold bitmap.data_pos, wrap. apply N.Div0.add_mod_idemp_l.
Qed.

Lemma in_range_offset (w h x y : N) :
  x < w → y < h → y * w + x < w * h.
Proof. intros Hx Hy. nia. Qed.

Lemma data_pos_in_range g x y :
  bitmap.width g * bitmap.height g ≤ SIZE_MAX →
  x < bitmap.width g → y < bitmap.height g →
  bitmap.data_pos g (point.mk x y) = y * bitmap.width g + x.
Proof.
  intros Hfit Hx Hy. rewrite data_pos_wrap. simpl.
  apply wrap_small.
  pose proof (in_range_offset _ _ _ _ Hx Hy). lia.
Qed.

Lemma concat_lookup_row (rows : list (list A)) (w x y : nat) :
  Forall (λ row, length row = w) rows → (x < w)%nat →
  concat rows !! (y * w + x)%nat = rows !! y ≫= (.!! x).
Proof.
  intros Hrows Hx. revert y.
  induction Hrows as [|row rows Hrow _ IH]; intros y; [done|].
  destruct y as [|y]; simpl.
  - rewrite lookup_app_l by lia. done.
  - rewrite lookup_app_r by lia.
    replace (w + y * w + x - length row)%nat with (y * w + x)%nat by lia.
    apply IH.
Qed.

Lemma row_major_lookup g rows x y :
  bitmap.row_major g rows → x < bitmap.width g →
  bitmap.data_ g !! N.to_nat (y * bitmap.width g + x) = bitmap.cell rows x y.
Proof.
  intros (Hdata & Hh & Hw) Hx. unfold bitmap.cell. rewrite Hdata.
  replace (N.to_nat (y * bitmap.width g + x))
    with (N.to_nat y * N.to_nat (bitmap.width g) + N.to_nat x)%nat by lia.
  apply concat_lookup_row; [|lia].
  eapply Forall_impl; [exact Hw|]. simpl. intros row Hrow. lia.
Qed.

Lemma row_major_cell_is_Some g rows x y :
  bitmap.row_major g rows → x < bitmap.width g → y < bitmap.height g →
  is_Some (bitmap.cell rows x y).
Proof.
  intros (Hdata & Hh & Hw) Hx Hy. unfold bitmap.cell.
  destruct (lookup_lt_is_Some_2 rows (N.to_nat y)) as [row Hrow]; [lia|].
  rewrite Hrow. simpl. apply lookup_lt_is_Some_2.
  rewrite Forall_forall in Hw.
  specialize (Hw row (list_elem_of_lookup_2 _ _ _ Hrow)). lia.
Qed.

(** C7. [data_pos] is a total function of the coordinates and the width
    alone: it returns [y * width() + x] (computed on [std::size_t]) for every
    pair of coordinates, whatever the storage holds; for coordinates in range
    this is the exact value [y * width + x], the position of element [(x, y)]
    when the rows are laid out one after the other. *)
Theorem data_pos_row_major g x y :
  bitmap.data_pos_xy g x y = wrap (y * bitmap.width g + x) ∧
  bitmap.data_pos g (point.mk x y) = bitmap.data_pos_xy g x y ∧
  (∀ d : list A, bitmap.data_pos_xy (bitmap.mk (bitmap.size_ g) d) x y
        = bitmap.data_pos_xy g x y) ∧
  (y * bitmap.width g + x ≤ SIZE_MAX →
   bitmap.data_pos_xy g x y = y * bitmap.width g + x) ∧
  (∀ rows,
     bitmap.row_major g rows →
     bitmap.width g * bitmap.height g ≤ SIZE_MAX →
     x < bitmap.width g → y < bitmap.height g →
     bitmap.data_pos_xy g x y = y * bitmap.width g + x ∧
     is_Some (bitmap.cell rows x y) ∧
     bitmap.data_ g !! N.to_nat (bitmap.data_pos_xy g x y)
     = bitmap.cell rows x y).
Proof.
  unfold bitmap.data_pos_xy.
  split; [apply data_pos_wrap|]. split; [done|]. split; [done|].
  split.
  - intros Hfit. rewrite data_pos_wrap. simpl. by apply wrap_small.
  - intros rows Hrows Hfit Hx Hy.
    rewrite (data_pos_in_range g x y Hfit Hx Hy).
    split; [done|]. split.
    + by apply (row_major_cell_is_Some g).
    + by apply row_major_lookup.
Qed.

End layout.

Lemma data_pos_row_major_witness :
  bitmap.data_pos_xy (bitmap.mk (size.mk 3 2) [1%Z; 2%Z; 3%Z; 4%Z; 5%Z; 6%Z]) 2 1
  = 1 * 3 + 2 ∧
  is_Some (bitmap.cell [[1%Z; 2%Z; 3%Z]; [4%Z; 5%Z; 6%Z]] 2 1) ∧
  [1%Z; 2%Z; 3%Z; 4%Z; 5%Z; 6%Z] !! N.to_nat 5
  = bitmap.cell [[1%Z; 2%Z; 3%Z]; [4%Z; 5%Z; 6%Z]] 2 1.
Proof.
  apply (data_pos_row_major
           (bitmap.mk (size.mk 3 2) [1%Z; 2%Z; 3%Z; 4%Z; 5%Z; 6%Z]) 2 1).
  - split; [reflexivity|]. split; [reflexivity|].
    repeat constructor.
  - vm_compute. discriminate.
  - reflexivity.
  - reflexivity.
Defined.

(** ** Checked element access *)

Section checked_access.
Context {A : Type} `{!ValueType A}.
Implicit Types (g : bitmap.t A) (p : point.t) (x y : N).

Lemma is_point_in_bitmap_spec g p :
  bitmap.is_point_in_bitmap g p = true ↔
  point.x p < bitmap.width g ∧ point.y p < bitmap.height g.
Proof.
  unfold bitmap.is_point_in_bitmap.
  destruct (N.ltb_spec (point.x p) 0), (N.leb_spec (bitmap.width g) (point.x p)),
    (N.ltb_spec (point.y p) 0), (N.leb_spec (bitmap.height g) (point.y p));
    simpl; split; try discriminate; try lia; done.
Qed.

Lemma do_point_no_throw g p e : bitmap.do_point g p ≠ Throw e.
Proof. unfold bitmap.do_point. simpl. by case_decide. Qed.

Lemma call_debug_throws g p :
  bitmap.call true g p = Throw out_of_range ↔
  bitmap.width g ≤ point.x p ∨ bitmap.height g ≤ point.y p.
Proof.
  unfold bitmap.call, bitmap.throw_if_out_of_range.
  pose proof (is_point_in_bitmap_spec g p) as Hin.
  destruct (bitmap.is_point_in_bitmap g p); simpl.
  - split.
    + intros Hthrow. by apply do_point_no_throw in Hthrow.
    + intros Hout. destruct Hin as [Hin _]. specialize (Hin eq_refl). lia.
  - split; [|done]. intros _.
    destruct (N.le_gt_cases (bitmap.width g) (point.x p)); [by left|].
    destruct (N.le_gt_cases (bitmap.height g) (point.y p)); [by right|].
    destruct Hin as [_ Hin]. by discriminate Hin.
Qed.

Lemma call_debug_in_range g x y :
  bitmap.well_formed g → x < bitmap.width g → y < bitmap.height g →
  ∃ ref, bitmap.call true g (point.mk x y) = Ok ref ∧
         N.of_nat ref = y * bitmap.width g + x ∧
         is_Some (bitmap.load g ref).
Proof.
  intros [Hlen Hfit] Hx Hy.
  pose proof (in_range_offset _ _ _ _ Hx Hy) as Hoff.
  exists (N.to_nat (y * bitmap.width g + x)).
  unfold bitmap.call, bitmap.throw_if_out_of_range.
  rewrite (proj2 (is_point_in_bitmap_spec g (point.mk x y))) by done. simpl.
  unfold bitmap.do_point. simpl.
  rewrite (data_pos_in_range g x y Hfit Hx Hy).
  rewrite decide_True by lia.
  split; [done|]. split; [lia|].
  unfold bitmap.load. apply lookup_lt_is_Some_2. lia.
Qed.

(** C6. With [DEBUG] defined, on a grid of width and height at least 1,
    [operator()] throws [std::out_of_range] exactly when [x >= width()] or
    [y >= height()], so it throws at [(width, 0)] and at [(0, height)]; when
    the storage holds [width * height] elements, at every point in range,
    [(width - 1, height - 1)] among them, it returns a reference to the
    stored element at offset [y * width + x]. *)
Theorem checked_access_bounds g :
  1 ≤ bitmap.width g → 1 ≤ bitmap.height g →
  (∀ x y, bitmap.call_xy true g x y = Throw out_of_range ↔
          bitmap.width g ≤ x ∨ bitmap.height g ≤ y) ∧
  bitmap.call_xy true g (bitmap.width g) 0 = Throw out_of_range ∧
  bitmap.call_xy true g 0 (bitmap.height g) = Throw out_of_range ∧
  (bitmap.well_formed g →
   (∀ x y, x < bitmap.width g → y < bitmap.height g →
      ∃ ref, bitmap.call_xy true g x y = Ok ref ∧
             N.of_nat ref = y * bitmap.width g + x ∧
             is_Some (bitmap.load g ref)) ∧
   (∃ ref, bitmap.call_xy true g (bitmap.width g - 1) (bitmap.height g - 1)
           = Ok ref ∧
           N.of_nat ref = bitmap.width g * bitmap.height g - 1 ∧
           is_Some (bitmap.load g ref))).
Proof.
  intros Hw Hh. unfold bitmap.call_xy.
  split; [|split; [|split]].
  - intros x y. apply (call_debug_throws g (point.mk x y)).
  - apply call_debug_throws. simpl. left. lia.
  - apply call_debug_throws. simpl. right. lia.
  - intros Hex. split.
    + intros x y Hx Hy. by apply call_debug_in_range.
    + destruct (call_debug_in_range g (bitmap.width g - 1) (bitmap.height g - 1))
        as (ref & Hcall & Href & Hload); [done | lia | lia |].
      exists ref. split; [done|]. split; [|done]. nia.
Qed.

End checked_access.

Lemma checked_access_bounds_witness :
  bitmap.call_xy true (bitmap.mk (size.mk 3 2) [1%Z; 2%Z; 3%Z; 4%Z; 5%Z; 6%Z])
    3 0 = Throw out_of_range ∧
  bitmap.call_xy true (bitmap.mk (size.mk 3 2) [1%Z; 2%Z; 3%Z; 4%Z; 5%Z; 6%Z])
    0 2 = Throw out_of_range ∧
  ∃ ref,
    bitmap.call_xy true (bitmap.mk (size.mk 3 2) [1%Z; 2%Z; 3%Z; 4%Z; 5%Z; 6%Z])
      2 1 = Ok ref ∧
    N.of_nat ref = 5 ∧
    is_Some (bitmap.load
               (bitmap.mk (size.mk 3 2) [1%Z; 2%Z; 3%Z; 4%Z; 5%Z; 6%Z]) ref).
Proof.
  destruct (checked_access_bounds
              (bitmap.mk (size.mk 3 2) [1%Z; 2%Z; 3%Z; 4%Z; 5%Z; 6%Z]))
    as (_ & Hw & Hh & Hin).
  - vm_compute. discriminate.
  - vm_compute. discriminate.
  - split; [exact Hw|]. split; [exact Hh|].
    apply Hin. split; [reflexivity|]. vm_compute. discriminate.
Defined.

(** ** Storage of the result of [subbitmap] *)

Section ownership.
Context {A : Type} `{!ValueType A}.
Implicit Types (h : heap A) (g b result res : mem.t) (p q first out : mem.ptr)
  (a : mem.addr) (v : A).

Lemma mem_store_frame h p v h' a :
  mem.store h p v = Ok h' → mem.base p ≠ Some a → h' !! a = h !! a.
Proof.
  unfold mem.store. intros Hstore Hbase.
  destruct (mem.base p) as [c|]; [|discriminate].
  destruct (h !! c) as [d|]; [|discriminate].
  case_decide; [|discriminate]. injection Hstore as <-.
  apply lookup_insert_ne. congruence.
Qed.

Lemma mem_std_copy_frame h first n out h' a :
  mem.std_copy h first n out = Ok h' → mem.base out ≠ Some a →
  h' !! a = h !! a.
Proof.
  revert h first out. induction n as [|n IH]; intros h first out; simpl.
  - by intros [= <-].
  - intros (v & _ & (h1 & Hstore & Hcopy)%bind_Ok_inv)%bind_Ok_inv Hbase.
    rewrite (IH _ _ _ Hcopy) by done.
    by apply (mem_store_frame h out v).
Qed.

Lemma mem_ptr_add_base h p k q :
  mem.ptr_add h p k = Ok q → mem.base q = mem.base p.
Proof.
  unfold mem.ptr_add. case_decide; [|discriminate]. by intros [= <-].
Qed.

Lemma mem_data_base h b a :
  mem.base (mem.data h b) = Some a → a = mem.data_ b.
Proof.
  unfold mem.data. destruct (h !! mem.data_ b) as [[|e d]|]; simpl; congruence.
Qed.

Lemma mem_copy_rows_frame h b x_end count y result h' a :
  mem.copy_rows h b x_end count y result = Ok h' → a ≠ mem.data_ result →
  h' !! a = h !! a.
Proof.
  revert h y. induction count as [|count IH]; intros h y; simpl.
  - by intros [= <-].
  - intros (i & _ & (o & Ho & (h1 & Hcopy & Hrows)%bind_Ok_inv)%bind_Ok_inv)%bind_Ok_inv Ha.
    rewrite (IH _ _ Hrows Ha).
    apply (mem_std_copy_frame _ _ _ _ _ _ Hcopy).
    rewrite (mem_ptr_add_base _ _ _ _ Ho).
    intros Hbase%mem_data_base. congruence.
Qed.

Lemma mem_ctor_fill_inv h s v h1 result :
  mem.ctor_fill h s v = Ok (h1, result) →
  mem.data_ result = fresh (dom h) ∧ mem.size_ result = s ∧
  h1 = <[mem.data_ result := replicate (N.to_nat (size.point_count s)) v]> h.
Proof.
  unfold mem.ctor_fill, mem.alloc.
  intros (d & [_ ->]%vector_fill_inv & Hres)%bind_Ok_inv.
  destruct (throw_if_size_is_negative_cases s) as [Hs | Hs];
    rewrite Hs in Hres; simpl in Hres; [|discriminate].
  by injection Hres as <- <-.
Qed.

Lemma mem_subbitmap_fresh h g r v h' res :
  mem.subbitmap h g r v = Ok (h', res) →
  mem.data_ res = fresh (dom h) ∧ mem.size_ res = rect.size r.
Proof.
  unfold mem.subbitmap.
  intros ([h1 result] & (Hfresh & Hsize & _)%mem_ctor_fill_inv & Hres)%bind_Ok_inv.
  destruct (_ || _).
  - by injection Hres as <- <-.
  - apply bind_Ok_inv in Hres as (h2 & _ & [= <- <-]). done.
Qed.

Lemma mem_subbitmap_frame h g r v h' res a :
  mem.subbitmap h g r v = Ok (h', res) → a ≠ mem.data_ res →
  h' !! a = h !! a.
Proof.
  unfold mem.subbitmap.
  intros ([h1 result] & (_ & _ & ->)%mem_ctor_fill_inv & Hres)%bind_Ok_inv Ha.
  destruct (_ || _).
  - injection Hres as <- <-. by apply lookup_insert_ne.
  - apply bind_Ok_inv in Hres as (h2 & Hrows & [= <- <-]).
    rewrite (mem_copy_rows_frame _ _ _ _ _ _ _ _ Hrows Ha).
    by apply lookup_insert_ne.
Qed.

Lemma mem_call_base debug h b pt ref :
  mem.call debug h b pt = Ok ref → mem.base ref = Some (mem.data_ b).
Proof.
  unfold mem.call.
  intros (_ & _ & Href)%bind_Ok_inv.
  case_decide; [|discriminate]. by injection Href as <-.
Qed.

Lemma mem_set_frame debug h b pt v h' a :
  mem.set debug h b pt v = Ok h' → a ≠ mem.data_ b → h' !! a = h !! a.
Proof.
  unfold mem.set.
  intros (ref & Hbase%mem_call_base & Hstore)%bind_Ok_inv Ha.
  apply (mem_store_frame _ _ _ _ _ Hstore). congruence.
Qed.

Lemma mem_view_frame h h' b :
  h' !! mem.data_ b = h !! mem.data_ b → mem.view h' b = mem.view h b.
Proof. unfold mem.view. by intros ->. Qed.

End ownership.

(** ** [subbitmap]: where the rows are copied from *)

(** C1, at a rectangle inside the grid. The 3x2 grid [0 5 0; 0 0 9] is built
    with the public interface; the rectangle at (1, 0) of size 2x2 lies
    inside it. The result is [0 5; 0 0], the top-left 2x2 corner of the
    source: its element (0, 0) is the source's element (0, 0), which is 0,
    and not the source's element (1, 0), which is 5. *)
Lemma subbitmap_copies_top_left_corner :
  let g0 := bitmap.mk (size.mk 3 2) [0%Z; 0%Z; 0%Z; 0%Z; 0%Z; 0%Z] in
  let g1 := bitmap.mk (size.mk 3 2) [0%Z; 5%Z; 0%Z; 0%Z; 0%Z; 0%Z] in
  let g := bitmap.mk (size.mk 3 2) [0%Z; 5%Z; 0%Z; 0%Z; 0%Z; 9%Z] in
  let r := rect.mk (point.mk 1 0) (size.mk 2 2) in
  let res := bitmap.mk (size.mk 2 2) [0%Z; 5%Z; 0%Z; 0%Z] in
  bitmap.ctor_fill (size.mk 3 2) 0%Z = Ok g0 ∧
  bitmap.set true g0 (point.mk 1 0) 5%Z = Ok g1 ∧
  bitmap.set true g1 (point.mk 2 1) 9%Z = Ok g ∧
  rect.x r + rect.width r ≤ bitmap.width g ∧
  rect.y r + rect.height r ≤ bitmap.height g ∧
  bitmap.subbitmap g r (-1)%Z = Ok res ∧
  bitmap.get true res (point.mk 0 0) = Ok 0%Z ∧
  bitmap.get true g (point.mk (rect.x r + 0) (rect.y r + 0)) = Ok 5%Z ∧
  bitmap.get true res (point.mk 0 0)
  ≠ bitmap.get true g (point.mk (rect.x r + 0) (rect.y r + 0)).
Proof.
  repeat split; try reflexivity; vm_compute; discriminate.
Qed.

(** The scenario of the specification: the same grid and the rectangle at
    (1, 0) of size 3x2 with fill value -1. The code returns
    [0 5 -1; 0 0 -1]: columns 0-1 of the source, not columns 1-2. *)
Lemma subbitmap_scenario :
  bitmap.subbitmap (bitmap.mk (size.mk 3 2) [0%Z; 5%Z; 0%Z; 0%Z; 0%Z; 9%Z])
    (rect.mk (point.mk 1 0) (size.mk 3 2)) (-1)%Z
  = Ok (bitmap.mk (size.mk 3 2) [0%Z; 5%Z; (-1)%Z; 0%Z; 0%Z; (-1)%Z]).
Proof. reflexivity. Qed.

(** ** [subbitmap]: contents of the result *)

Section subbitmap_contents.
Context {A : Type} `{!ValueType A}.
Implicit Types (g result res : bitmap.t A) (src dst d : list A) (v : A).

Lemma std_copy_ok src first n dst out :
  (first + n ≤ length src)%nat → (out + n ≤ length dst)%nat →
  ∃ d, bitmap.std_copy src first n dst out = Ok d ∧
       length d = length dst ∧
       ∀ i, d !! i = if decide (out ≤ i < out + n)%nat
                     then src !! (first + (i - out))%nat
                     else dst !! i.
Proof.
  revert first dst out.
  induction n as [|n IH]; intros first dst out Hsrc Hdst; simpl.
  - exists dst. split; [done|]. split; [done|].
    intros i. by rewrite decide_False by lia.
  - destruct (lookup_lt_is_Some_2 src first) as [e He]; [lia|]. rewrite He.
    rewrite decide_True by lia.
    destruct (IH (S first) (<[out:=e]> dst) (S out)) as (d & Hd & Hlen & Hget).
    { lia. }
    { rewrite length_insert. lia. }
    exists d. split; [done|]. split; [by rewrite Hlen, length_insert|].
    intros i. rewrite Hget.
    destruct (decide (i = out)) as [->|Hne].
    + rewrite decide_False by lia. rewrite decide_True by lia.
      rewrite list_lookup_insert_eq by lia.
      by replace (first + (out - out))%nat with first by lia.
    + rewrite list_lookup_insert_ne by done.
      repeat case_decide; try lia; try done.
      f_equal. lia.
Qed.

Lemma row_range (rw x_end i j y0 : N) :
  i < rw → x_end ≤ rw →
  (y0 * rw ≤ j * rw + i ∧ j * rw + i < y0 * rw + x_end) ↔ (j = y0 ∧ i < x_end).
Proof.
  intros Hi Hx. split.
  - intros [Hlo Hhi].
    destruct (N.lt_trichotomy j y0) as [Hlt | [-> | Hgt]]; [nia | lia | nia].
  - intros [-> Hlt]. lia.
Qed.

Lemma get_in_range debug g x y :
  bitmap.well_formed g → x < bitmap.width g → y < bitmap.height g →
  bitmap.get debug g (point.mk x y) =
    match bitmap.data_ g !! N.to_nat (y * bitmap.width g + x) with
    | Some e => Ok e
    | None => Undefined
    end.
Proof.
  intros [Hlen Hfit] Hx Hy.
  pose proof (in_range_offset _ _ _ _ Hx Hy) as Hoff.
  unfold bitmap.get, bitmap.call, bitmap.throw_if_out_of_range.
  rewrite (proj2 (is_point_in_bitmap_spec g (point.mk x y))) by done.
  assert (bitmap.do_point g (point.mk x y)
          = Ok (N.to_nat (y * bitmap.width g + x))) as Hdo.
  { unfold bitmap.do_point. simpl.
    rewrite (data_pos_in_range g x y Hfit Hx Hy).
    by rewrite decide_True by lia. }
  destruct debug; simpl; by rewrite Hdo.
Qed.

Lemma copy_rows_ok g x_end count y0 result :
  bitmap.well_formed g → bitmap.well_formed result →
  y0 + N.of_nat count ≤ bitmap.height g →
  y0 + N.of_nat count ≤ bitmap.height result →
  y0 + N.of_nat count ≤ SIZE_MAX →
  x_end ≤ bitmap.width g → x_end ≤ bitmap.width result →
  ∃ res, bitmap.copy_rows g x_end count y0 result = Ok res ∧
    bitmap.size_ res = bitmap.size_ result ∧
    length (bitmap.data_ res) = length (bitmap.data_ result) ∧
    ∀ i j, i < bitmap.width result → j < bitmap.height result →
      bitmap.data_ res !! N.to_nat (j * bitmap.width result + i) =
      if decide (y0 ≤ j ∧ j < y0 + N.of_nat count ∧ i < x_end)
      then bitmap.data_ g !! N.to_nat (j * bitmap.width g + i)
      else bitmap.data_ result !! N.to_nat (j * bitmap.width result + i).
Proof.
  intros [Hglen Hgfit]. revert y0 result.
  induction count as [|count IH];
    intros y0 result [Hrlen Hrfit] Hyg Hyr Hymax Hxg Hxr.
  - exists result. simpl. split; [done|]. split; [done|]. split; [done|].
    intros i j _ _. by rewrite decide_False by lia.
  - simpl.
    assert (wrap (y0 * bitmap.width g) = y0 * bitmap.width g) as ->
      by (apply wrap_small; nia).
    assert (wrap (y0 * bitmap.width result) = y0 * bitmap.width result) as ->
      by (apply wrap_small; nia).
    assert (wrap (y0 + 1) = y0 + 1) as -> by (apply wrap_small; lia).
    unfold bitmap.ptr_add.
    rewrite decide_True by nia. simpl.
    rewrite decide_True by nia. simpl.
    destruct (std_copy_ok (bitmap.data_ g) (N.to_nat (y0 * bitmap.width g))
                (N.to_nat x_end) (bitmap.data_ result)
                (N.to_nat (y0 * bitmap.width result)))
      as (d & -> & Hdlen & Hd); [nia | nia |]. simpl.
    destruct (IH (y0 + 1) (bitmap.mk (bitmap.size_ result) d))
      as (res & Hres & Hsize & Hlen & Hget).
    { split; unfold bitmap.width, bitmap.height in *; simpl; [|done].
      by rewrite Hdlen. }
    { lia. }
    { unfold bitmap.height in *. simpl. lia. }
    { lia. }
    { done. }
    { done. }
    exists res. split; [done|]. split; [done|].
    split; [by rewrite Hlen|].
    intros i j Hi Hj.
    change (bitmap.width (bitmap.mk (bitmap.size_ result) d))
      with (bitmap.width result) in Hget.
    change (bitmap.height (bitmap.mk (bitmap.size_ result) d))
      with (bitmap.height result) in Hget.
    rewrite (Hget i j Hi Hj). simpl. rewrite Hd.
    pose proof (row_range (bitmap.width result) x_end i j y0 Hi Hxr) as Hrange.
    destruct (decide (j = y0 ∧ i < x_end)) as [[-> Hlt] | Hno].
    + rewrite decide_False by lia.
      rewrite decide_True by lia.
      rewrite decide_True by lia.
      f_equal. lia.
    + rewrite (decide_False (P := (_ ≤ _ < _)%nat)) by lia.
      destruct (decide (y0 + 1 ≤ j ∧ j < y0 + 1 + N.of_nat count ∧ i < x_end)).
      * by rewrite decide_True by lia.
      * by rewrite decide_False by lia.
Qed.

(** What the loop copies. On a grid holding [width * height] elements, for a
    rectangle of an area of at most [max_size()] whose origin lies inside
    the grid,
    [subbitmap] returns a grid of the size of the rectangle whose element
    [(i, j)] is the element [(i, j)] of the source when [i < x_end] and
    [j < y_end], and the fill value otherwise. The origin of the rectangle
    determines [x_end] and [y_end] only. *)
Lemma subbitmap_contents g r v :
  bitmap.well_formed g →
  rect.width r * rect.height r ≤ max_size →
  rect.x r < bitmap.width g → rect.y r < bitmap.height g →
  ∃ res, bitmap.subbitmap g r v = Ok res ∧
    bitmap.size res = rect.size r ∧
    bitmap.well_formed res ∧
    ∀ i j, i < rect.width r → j < rect.height r →
      bitmap.get true res (point.mk i j) =
      if decide (i < N.min (rect.width r) (bitmap.width g - rect.x r) ∧
                 j < N.min (rect.height r) (bitmap.height g - rect.y r))
      then bitmap.get true g (point.mk i j)
      else Ok v.
Proof.
  intros Hg Hmax Hx Hy.
  pose proof (max_size_le_SIZE_MAX _ Hmax) as Hfit.
  pose proof Hg as [Hglen Hgfit].
  assert (bitmap.width g ≤ SIZE_MAX) as Hw by nia.
  assert (bitmap.height g ≤ SIZE_MAX) as Hh by nia.
  assert (size.point_count (rect.size r) ≤ max_size) as Hcount.
  { unfold size.point_count. by rewrite wrap_small. }
  unfold bitmap.subbitmap.
  rewrite (ctor_fill_positive _ v (is_positive_true (rect.size r)) Hcount).
  simpl.
  assert ((bitmap.width g <=? rect.x r) || (bitmap.height g <=? rect.y r) = false)
    as ->.
  { apply orb_false_iff. split; apply N.leb_gt; lia. }
  rewrite !wsub_small by lia.
  set (result := bitmap.mk (rect.size r) _).
  assert (bitmap.well_formed result) as Hresult.
  { split; [|done]. unfold result. simpl. rewrite length_replicate.
    unfold size.point_count. rewrite wrap_small by done.
    unfold bitmap.width, bitmap.height. simpl. lia. }
  destruct (copy_rows_ok g
              (N.min (rect.width r) (bitmap.width g - rect.x r))
              (N.to_nat (N.min (rect.height r) (bitmap.height g - rect.y r)))
              0 result)
    as (res & Hres & Hsize & Hlen & Hget); try done.
  { lia. }
  { unfold result, bitmap.height. simpl. unfold rect.height. lia. }
  { lia. }
  { lia. }
  { unfold result, bitmap.width. simpl. unfold rect.width. lia. }
  exists res. split; [done|]. split; [done|].
  assert (bitmap.well_formed res) as Hexact.
  { destruct Hresult as [Hrlen Hrfit].
    unfold bitmap.well_formed, bitmap.width, bitmap.height in *.
    by rewrite Hsize, Hlen. }
  split; [done|].
  intros i j Hi Hj.
  assert (bitmap.width res = rect.width r) as Hrw
    by (unfold bitmap.width; by rewrite Hsize).
  assert (bitmap.height res = rect.height r) as Hrh
    by (unfold bitmap.height; by rewrite Hsize).
  rewrite (get_in_range true res i j Hexact) by lia.
  rewrite Hrw. specialize (Hget i j Hi Hj).
  change (bitmap.width result) with (rect.width r) in Hget.
  rewrite Hget.
  destruct (decide (i < N.min (rect.width r) (bitmap.width g - rect.x r) ∧
                    j < N.min (rect.height r) (bitmap.height g - rect.y r)))
    as [[Hin_x Hin_y] | Hno].
  - rewrite decide_True by lia.
    by rewrite (get_in_range true g i j Hg) by lia.
  - rewrite decide_False by lia.
    unfold result. simpl. rewrite lookup_replicate_2; [done|].
    unfold size.point_count. rewrite wrap_small by done.
    change (size.width (rect.size r)) with (rect.width r).
    change (size.height (rect.size r)) with (rect.height r).
    pose proof (in_range_offset _ _ _ _ Hi Hj). lia.
Qed.

End subbitmap_contents.

(** ** [subbitmap] of a rectangle outside the grid *)

Section subbitmap_outside.
Context {A : Type} `{!ValueType A}.
Implicit Types (g res : bitmap.t A) (v : A).

Lemma well_formed_fill s v :
  size.width s * size.height s ≤ SIZE_MAX →
  bitmap.well_formed
    (bitmap.mk s (replicate (N.to_nat (size.point_count s)) v)).
Proof.
  intros Hfit. split; [|done]. simpl. rewrite length_replicate.
  unfold size.point_count. rewrite wrap_small by done.
  unfold bitmap.width, bitmap.height. simpl. lia.
Qed.

Lemma get_fill debug s v x y :
  size.width s * size.height s ≤ SIZE_MAX →
  x < size.width s → y < size.height s →
  bitmap.get debug
    (bitmap.mk s (replicate (N.to_nat (size.point_count s)) v))
    (point.mk x y) = Ok v.
Proof.
  intros Hfit Hx Hy.
  rewrite (get_in_range debug _ x y (well_formed_fill s v Hfit)) by done.
  simpl. rewrite lookup_replicate_2; [done|].
  unfold size.point_count. rewrite wrap_small by done.
  pose proof (in_range_offset _ _ _ _ Hx Hy).
  unfold bitmap.width. simpl. lia.
Qed.

(** C3, as the code has it. When the origin of [r] lies outside [g] and the
    result's vector can hold [r.size().point_count()] elements (at most
    [max_size()]), [subbitmap] returns a grid of size [r.size()] all of whose
    elements equal the fill value: every point of the rectangle reads the
    fill value when the area of the rectangle is representable. *)
Theorem subbitmap_origin_outside g r v :
  size.point_count (rect.size r) ≤ max_size →
  bitmap.width g ≤ rect.x r ∨ bitmap.height g ≤ rect.y r →
  ∃ res, bitmap.subbitmap g r v = Ok res ∧
    bitmap.size res = rect.size r ∧
    N.of_nat (length (bitmap.data_ res)) = size.point_count (rect.size r) ∧
    Forall (λ e, e = v) (bitmap.data_ res) ∧
    (rect.width r * rect.height r ≤ SIZE_MAX →
     ∀ debug x y, x < rect.width r → y < rect.height r →
       bitmap.get debug res (point.mk x y) = Ok v).
Proof.
  intros Hmax Hout. rewrite (subbitmap_outside g r v Hmax Hout).
  eexists. split; [done|]. simpl. split; [done|]. split; [|split].
  - rewrite length_replicate. lia.
  - by apply Forall_replicate.
  - intros Hfit debug x y Hx Hy. by apply get_fill.
Qed.

End subbitmap_outside.

Lemma subbitmap_origin_outside_witness :
  ∃ res,
    bitmap.subbitmap (bitmap.mk (size.mk 2 1) [7%Z; 8%Z])
      (rect.mk (point.mk 2 0) (size.mk 2 2)) 0%Z = Ok res ∧
    bitmap.size res = size.mk 2 2 ∧
    N.of_nat (length (bitmap.data_ res)) = 4 ∧
    Forall (λ e, e = 0%Z) (bitmap.data_ res) ∧
    bitmap.get true res (point.mk 1 1) = Ok 0%Z.
Proof.
  destruct (subbitmap_origin_outside (bitmap.mk (size.mk 2 1) [7%Z; 8%Z])
              (rect.mk (point.mk 2 0) (size.mk 2 2)) 0%Z)
    as (res & Hres & Hsize & Hlen & Hall & Hget).
  - by vm_compute.
  - left. by vm_compute.
  - exists res. split; [done|]. split; [done|]. split; [done|].
    split; [done|]. apply Hget; by vm_compute.
Defined.

(** C3, as stated, fails: the rectangle at (2, 0) of size 2^61 x 1 has its
    origin outside the 2x1 grid, and the result's vector of 2^61 elements
    exceeds [max_size()]: the constructor of the result throws
    [std::length_error] before the early return is reached. *)
Lemma subbitmap_origin_outside_length_error :
  bitmap.width (bitmap.mk (size.mk 2 1) [7%Z; 8%Z])
  ≤ rect.x (rect.mk (point.mk 2 0) (size.mk (2 ^ 61) 1)) ∧
  bitmap.subbitmap (bitmap.mk (size.mk 2 1) [7%Z; 8%Z])
    (rect.mk (point.mk 2 0) (size.mk (2 ^ 61) 1)) 0%Z = Throw length_error.
Proof. split; [by vm_compute | reflexivity]. Qed.

(** ** The objects in memory compute the values *)

Section refinement.
Context {A : Type} `{!ValueType A}.
Implicit Types (h : heap A) (g b result : mem.t) (first out : mem.ptr)
  (src dst d : list A) (a c : mem.addr) (v : A).

Lemma mem_buffer_insert_ne h first c d :
  mem.base first ≠ Some c →
  mem.buffer (<[c := d]> h) first = mem.buffer h first.
Proof.
  unfold mem.buffer. intros Hne.
  destruct (mem.base first) as [a|]; [|done].
  rewrite lookup_insert_ne; [done | congruence].
Qed.

Lemma mem_std_copy_refines h first n out :
  (∀ c, mem.base out = Some c →
        is_Some (h !! c) ∧ mem.base first ≠ Some c) →
  mem.std_copy h first n out =
    d ← bitmap.std_copy (mem.buffer h first) (mem.index first) n
          (mem.buffer h out) (mem.index out);
    Ok (match mem.base out with Some c => <[c := d]> h | None => h end).
Proof.
  revert h first out. induction n as [|n IH]; intros h first out Hout; simpl.
  - destruct out as [[c|] i]; simpl; [|done].
    destruct (Hout c eq_refl) as [[d Hd] _].
    unfold mem.buffer. simpl. rewrite Hd. simpl. by rewrite insert_id.
  - unfold mem.load.
    destruct (mem.buffer h first !! mem.index first) as [e|]; [|done]. simpl.
    unfold mem.store. destruct out as [[c|] i]; simpl.
    + destruct (Hout c eq_refl) as [[d Hd] Hne].
      assert (mem.buffer h (mem.mk_ptr (Some c) i) = d) as ->
        by (unfold mem.buffer; simpl; by rewrite Hd).
      rewrite Hd. case_decide; [|done]. simpl.
      rewrite IH.
      * assert (mem.buffer (<[c:=<[i:=e]> d]> h) (mem.next first)
                = mem.buffer h first) as ->
          by (apply (mem_buffer_insert_ne h (mem.next first)); done).
        assert (mem.buffer (<[c:=<[i:=e]> d]> h)
                  (mem.next (mem.mk_ptr (Some c) i)) = <[i:=e]> d) as ->
          by (unfold mem.buffer; simpl; by rewrite lookup_insert_eq).
        simpl.
        destruct (bitmap.std_copy _ _ _ _ _); simpl; [|done..].
        by rewrite insert_insert_eq.
      * simpl. intros c' [= <-]. split; [|done].
        rewrite lookup_insert_eq. by eexists.
    + done.
Qed.

Lemma mem_data_buffer h b :
  mem.buffer h (mem.data h b) = default [] (h !! mem.data_ b) ∧
  mem.index (mem.data h b) = 0%nat.
Proof.
  unfold mem.data, mem.buffer.
  destruct (h !! mem.data_ b) as [[|e d]|] eqn:Hb; simpl; [done | | done].
  by rewrite Hb.
Qed.

Lemma mem_ptr_add_refines h b k :
  mem.ptr_add h (mem.data h b) k =
    i ← bitmap.ptr_add (default [] (h !! mem.data_ b)) k;
    Ok (mem.mk_ptr (mem.base (mem.data h b)) i).
Proof.
  unfold mem.ptr_add, bitmap.ptr_add.
  destruct (mem_data_buffer h b) as [-> ->].
  case_decide as Hk.
  - rewrite decide_True by lia. done.
  - rewrite decide_False by lia. done.
Qed.

Lemma mem_copy_rows_refines h g x_end count y s a src d :
  a ≠ mem.data_ g →
  h !! mem.data_ g = Some src → h !! a = Some d →
  mem.copy_rows h g x_end count y (mem.mk s a) =
    res ← bitmap.copy_rows (bitmap.mk (mem.size_ g) src) x_end count y
            (bitmap.mk s d);
    Ok (<[a := bitmap.data_ res]> h).
Proof.
  intros Hne. revert h y d. induction count as [|count IH];
    intros h y d Hsrc Hdst; simpl.
  - by rewrite insert_id.
  - rewrite !mem_ptr_add_refines. simpl. rewrite Hsrc, Hdst. simpl.
    change (mem.width g) with (bitmap.width (bitmap.mk (mem.size_ g) src)).
    change (mem.width (mem.mk s a)) with (bitmap.width (bitmap.mk s d)).
    destruct (bitmap.ptr_add src _) as [i| |]; simpl; [|done..].
    destruct (bitmap.ptr_add d _) as [o| |]; simpl; [|done..].
    rewrite mem_std_copy_refines.
    + simpl.
      assert (mem.buffer h (mem.mk_ptr (mem.base (mem.data h g)) i) = src)
        as ->.
      { pose proof (mem_data_buffer h g) as [Hbuf _].
        unfold mem.buffer in *. simpl. by rewrite Hbuf, Hsrc. }
      assert (mem.buffer h (mem.mk_ptr (mem.base (mem.data h (mem.mk s a))) o)
              = d) as ->.
      { pose proof (mem_data_buffer h (mem.mk s a)) as [Hbuf _].
        unfold mem.buffer in *. simpl in *. by rewrite Hbuf, Hdst. }
      destruct (bitmap.std_copy src i _ d o) as [d'| |] eqn:Hcopy; simpl;
        [|done..].
      destruct (mem.base (mem.data h (mem.mk s a))) as [c|] eqn:Hbase.
      * apply mem_data_base in Hbase. simpl in Hbase. subst c.
        rewrite (IH _ _ d').
        -- destruct (bitmap.copy_rows _ _ _ _ _); simpl; [|done..].
           by rewrite insert_insert_eq.
        -- by rewrite lookup_insert_ne.
        -- by rewrite lookup_insert_eq.
      * assert (d = []) as ->.
        { unfold mem.data in Hbase. simpl in Hbase. rewrite Hdst in Hbase.
          by destruct d. }
        apply std_copy_length in Hcopy. destruct d'; [|done].
        by apply IH.
    + simpl. intros c Hbase. apply mem_data_base in Hbase.
      simpl in Hbase. subst c. split; [by eexists|].
      intros Hbase%mem_data_base. done.
Qed.

(** [mem.subbitmap] allocates a buffer for the grid that [bitmap.subbitmap]
    computes from the value of [g]. *)
Lemma mem_subbitmap_refines h g r v :
  is_Some (h !! mem.data_ g) →
  mem.subbitmap h g r v =
    res ← bitmap.subbitmap (mem.view h g) r v;
    Ok (<[fresh (dom h) := bitmap.data_ res]> h,
        mem.mk (bitmap.size_ res) (fresh (dom h))).
Proof.
  intros [src Hsrc].
  assert (fresh (dom h) ≠ mem.data_ g) as Hne.
  { intros Heq. apply (is_fresh (dom h)). rewrite Heq.
    apply elem_of_dom. by eexists. }
  unfold mem.subbitmap, bitmap.subbitmap, mem.ctor_fill, bitmap.ctor_fill,
    mem.alloc, mem.view.
  rewrite Hsrc. simpl.
  destruct (bitmap.vector_fill (size.point_count (rect.size r)) v)
    as [d| |] eqn:Hfill; simpl; [|done..].
  apply vector_fill_inv in Hfill as [_ ->].
  destruct (throw_if_size_is_negative_cases (rect.size r)) as [-> | ->]; simpl;
    [|done].
  change (mem.width g) with (bitmap.width (bitmap.mk (mem.size_ g) src)).
  change (mem.height g) with (bitmap.height (bitmap.mk (mem.size_ g) src)).
  destruct (_ || _); [done|].
  rewrite (mem_copy_rows_refines _ g _ _ _ _ _ src
             (replicate (N.to_nat (size.point_count (rect.size r))) v));
    [ | done | by rewrite lookup_insert_ne | by rewrite lookup_insert_eq ].
  destruct (bitmap.copy_rows _ _ _ _ _) as [res| |] eqn:Hrows; simpl; [|done..].
  apply copy_rows_shape in Hrows as [-> _]. simpl.
  by rewrite insert_insert_eq.
Qed.

(** [mem.set] stores the grid that [bitmap.set] computes. *)
Lemma mem_set_refines debug h b pt v :
  is_Some (h !! mem.data_ b) →
  mem.set debug h b pt v =
    g' ← bitmap.set debug (mem.view h b) pt v;
    Ok (<[mem.data_ b := bitmap.data_ g']> h).
Proof.
  intros [d Hd].
  unfold mem.set, bitmap.set, mem.call, bitmap.call, bitmap.do_point.
  destruct (bitmap.throw_if_out_of_range debug (mem.view h b) pt) as [[]| |];
    simpl; [|done..].
  case_decide as Hi; simpl; [|done].
  unfold mem.store. simpl. rewrite Hd.
  unfold mem.view in *. rewrite Hd in *. simpl in *.
  by rewrite decide_True by done.
Qed.

End refinement.

(** ** Independence of the result of [subbitmap] *)

Section independence.
Context {A : Type} `{!ValueType A}.
Implicit Types (h : heap A) (g res : mem.t) (v : A).

(** [subbitmap] returns on a live grid holding [width * height] elements,
    for every rectangle of an area of at most [max_size()]. *)
Lemma mem_subbitmap_returns h g r v :
  is_Some (h !! mem.data_ g) →
  bitmap.well_formed (mem.view h g) →
  rect.width r * rect.height r ≤ max_size →
  ∃ h' res, mem.subbitmap h g r v = Ok (h', res).
Proof.
  intros Hlive Hexact Hmax. rewrite (mem_subbitmap_refines h g r v Hlive).
  assert (size.point_count (rect.size r) ≤ max_size) as Hcount.
  { unfold size.point_count.
    by rewrite wrap_small by (by apply max_size_le_SIZE_MAX). }
  destruct (N.le_gt_cases (bitmap.width (mem.view h g)) (rect.x r)) as [Hx|Hx].
  { rewrite (subbitmap_outside (mem.view h g) r v Hcount) by (by left).
    simpl. eauto. }
  destruct (N.le_gt_cases (bitmap.height (mem.view h g)) (rect.y r)) as [Hy|Hy].
  { rewrite (subbitmap_outside (mem.view h g) r v Hcount) by (by right).
    simpl. eauto. }
  destruct (subbitmap_contents (mem.view h g) r v) as (res & -> & _);
    [done.. | simpl; eauto].
Qed.

(** C9. [subbitmap] on a live grid [g] leaves [g] as it was (same size,
    same elements) and returns the extracted grid in a new buffer, distinct
    from the buffer of [g]: assigning to an element of the result afterwards
    leaves every element of [g] as it was, and assigning to an element of [g]
    leaves the result as it was. *)
Theorem subbitmap_independent_storage h g r v h' res :
  is_Some (h !! mem.data_ g) →
  mem.subbitmap h g r v = Ok (h', res) →
  mem.view h' g = mem.view h g ∧
  bitmap.subbitmap (mem.view h g) r v = Ok (mem.view h' res) ∧
  mem.data_ res ≠ mem.data_ g ∧
  h !! mem.data_ res = None ∧
  (∀ debug pt e h'',
     mem.set debug h' res pt e = Ok h'' → mem.view h'' g = mem.view h g) ∧
  (∀ debug pt e h'',
     mem.set debug h' g pt e = Ok h'' → mem.view h'' res = mem.view h' res).
Proof.
  intros Hlive Hsub.
  destruct (mem_subbitmap_fresh _ _ _ _ _ _ Hsub) as [Hfresh _].
  assert (h !! mem.data_ res = None) as Hnew.
  { rewrite Hfresh. apply not_elem_of_dom, is_fresh. }
  assert (mem.data_ res ≠ mem.data_ g) as Hne.
  { intros Heq. rewrite Heq in Hnew. rewrite Hnew in Hlive.
    by apply is_Some_None in Hlive. }
  assert (h' !! mem.data_ g = h !! mem.data_ g) as Hsame.
  { apply (mem_subbitmap_frame _ _ _ _ _ _ _ Hsub). congruence. }
  split; [by apply mem_view_frame|]. split.
  { rewrite (mem_subbitmap_refines h g r v Hlive) in Hsub.
    apply bind_Ok_inv in Hsub as ([s d] & -> & [= <- <-]).
    unfold mem.view. simpl. by rewrite lookup_insert_eq. }
  split; [done|]. split; [done|]. split.
  - intros debug pt e h'' Hset. apply mem_view_frame.
    rewrite <- Hsame. apply (mem_set_frame _ _ _ _ _ _ _ Hset). congruence.
  - intros debug pt e h'' Hset. apply mem_view_frame.
    by apply (mem_set_frame _ _ _ _ _ _ _ Hset).
Qed.

End independence.

Lemma subbitmap_independent_storage_witness :
  ∃ h' res,
    mem.subbitmap {[1%positive := [0%Z; 5%Z; 0%Z; 0%Z; 0%Z; 9%Z]]}
      (mem.mk (size.mk 3 2) 1%positive)
      (rect.mk (point.mk 1 0) (size.mk 2 2)) (-1)%Z = Ok (h', res) ∧
    mem.view h' (mem.mk (size.mk 3 2) 1%positive)
    = bitmap.mk (size.mk 3 2) [0%Z; 5%Z; 0%Z; 0%Z; 0%Z; 9%Z] ∧
    mem.data_ res ≠ 1%positive.
Proof.
  eexists _, _. split; [vm_compute; reflexivity|].
  destruct (subbitmap_independent_storage
              {[1%positive := [0%Z; 5%Z; 0%Z; 0%Z; 0%Z; 9%Z]]}
              (mem.mk (size.mk 3 2) 1%positive)
              (rect.mk (point.mk 1 0) (size.mk 2 2)) (-1)%Z
              _ _ (ltac:(by eexists)) (ltac:(vm_compute; reflexivity)))
    as (Hview & _ & Hne & _).
  split; [exact Hview | exact Hne].
Defined.

(** * Further properties of the class *)

(** ** Offsets and coordinates *)

Section offsets.
Context {A : Type} `{!ValueType A}.
Implicit Types (g : bitmap.t A) (x y k : N) (v : A).

Lemma offset_div_mod (w x y : N) :
  x < w → (y * w + x) / w = y ∧ (y * w + x) mod w = x.
Proof.
  intros Hx. split; symmetry.
  - apply (N.div_unique _ _ _ x); lia.
  - apply (N.mod_unique _ _ y); lia.
Qed.

Lemma offset_of_div_mod (w k : N) : w ≠ 0 → k / w * w + k mod w = k.
Proof. intros Hw. rewrite (N.div_mod k w) at 3 by done. lia. Qed.

Lemma div_mod_in_range (w h k : N) :
  k < w * h → k mod w < w ∧ k / w < h.
Proof.
  intros Hk. assert (w ≠ 0) as Hw by lia. split.
  - by apply N.mod_upper_bound.
  - by apply N.Div0.div_lt_upper_bound.
Qed.

(** [data_pos] is a bijection between the points of the grid and the offsets
    below [width * height], when that product is representable: offsets of
    points in range are below the product, distinct points have distinct
    offsets, and offset [k] is that of the point [(k mod width, k / width)]. *)
Theorem data_pos_bijection g :
  bitmap.width g * bitmap.height g ≤ SIZE_MAX →
  (∀ x y, x < bitmap.width g → y < bitmap.height g →
     bitmap.data_pos_xy g x y < bitmap.width g * bitmap.height g) ∧
  (∀ x y x' y',
     x < bitmap.width g → y < bitmap.height g →
     x' < bitmap.width g → y' < bitmap.height g →
     bitmap.data_pos_xy g x y = bitmap.data_pos_xy g x' y' →
     x = x' ∧ y = y') ∧
  (∀ k, k < bitmap.width g * bitmap.height g →
     k mod bitmap.width g < bitmap.width g ∧
     k / bitmap.width g < bitmap.height g ∧
     bitmap.data_pos_xy g (k mod bitmap.width g) (k / bitmap.width g) = k).
Proof.
  intros Hfit. unfold bitmap.data_pos_xy. split; [|split].
  - intros x y Hx Hy. rewrite (data_pos_in_range g x y) by done.
    by apply in_range_offset.
  - intros x y x' y' Hx Hy Hx' Hy'.
    rewrite (data_pos_in_range g x y), (data_pos_in_range g x' y') by done.
    intros Heq.
    destruct (offset_div_mod (bitmap.width g) x y Hx) as [Hd Hm].
    destruct (offset_div_mod (bitmap.width g) x' y' Hx') as [Hd' Hm'].
    rewrite Heq in Hd, Hm. split; congruence.
  - intros k Hk.
    destruct (div_mod_in_range _ _ _ Hk) as [Hm Hd].
    split; [done|]. split; [done|].
    rewrite (data_pos_in_range g _ _ Hfit Hm Hd).
    apply offset_of_div_mod. lia.
Qed.

Lemma wrap_add_r (a b : N) : wrap (a + wrap b) = wrap (a + b).
Proof. unfold wrap. apply N.Div0.add_mod_idemp_r. Qed.

Lemma wrap_mul_add_l (a b c : N) : wrap (wrap a * b + c) = wrap (a * b + c).
Proof.
  unfold wrap.
  rewrite <- N.Div0.add_mod_idemp_l, N.Div0.mul_mod_idemp_l.
  apply N.Div0.add_mod_idemp_l.
Qed.

(** Without [DEBUG], access one row's width to the right of [(x, y)] is
    access to [(x, y + 1)], the sums being those of [std::size_t]:
    [data_pos] gives both the same offset and [operator()] throws for
    neither. With [DEBUG] the former throws [std::out_of_range] when
    [x + width()] does not wrap around; when it does, the column is in range
    again and nothing is thrown on a row in range. *)
Theorem unchecked_access_next_row g x y :
  bitmap.data_pos_xy g (wrap (x + bitmap.width g)) y
  = bitmap.data_pos_xy g x (wrap (y + 1)) ∧
  bitmap.call_xy false g (wrap (x + bitmap.width g)) y
  = bitmap.call_xy false g x (wrap (y + 1)) ∧
  bitmap.get false g (point.mk (wrap (x + bitmap.width g)) y)
  = bitmap.get false g (point.mk x (wrap (y + 1))) ∧
  (∀ e, bitmap.call_xy false g (wrap (x + bitmap.width g)) y ≠ Throw e) ∧
  (x + bitmap.width g ≤ SIZE_MAX →
   bitmap.call_xy true g (wrap (x + bitmap.width g)) y = Throw out_of_range) ∧
  (x ≤ SIZE_MAX → bitmap.width g ≤ SIZE_MAX →
   SIZE_MAX < x + bitmap.width g → y < bitmap.height g →
   bitmap.call_xy true g (wrap (x + bitmap.width g)) y ≠ Throw out_of_range).
Proof.
  assert (bitmap.data_pos g (point.mk (wrap (x + bitmap.width g)) y)
          = bitmap.data_pos g (point.mk x (wrap (y + 1)))) as Hpos.
  { rewrite !data_pos_wrap. simpl.
    rewrite wrap_add_r, wrap_mul_add_l. f_equal. lia. }
  unfold bitmap.data_pos_xy, bitmap.call_xy.
  split; [done|]. split; [|split; [|split; [|split]]].
  - unfold bitmap.call, bitmap.do_point. simpl. by rewrite Hpos.
  - unfold bitmap.get, bitmap.call, bitmap.do_point. simpl. by rewrite Hpos.
  - intros e. unfold bitmap.call, bitmap.do_point. simpl. by case_decide.
  - intros Hsum. apply call_debug_throws. simpl.
    rewrite wrap_small by done. lia.
  - intros Hx Hw Hsum Hy. rewrite call_debug_throws. simpl.
    assert (0 < 2 ^ size_t_bits) as Hbits
      by (apply N.neq_0_lt_0, N.pow_nonzero; lia).
    assert (wrap (x + bitmap.width g) = x + bitmap.width g - 2 ^ size_t_bits)
      as ->.
    { unfold wrap, SIZE_MAX in *.
      symmetry. apply (N.mod_unique _ _ 1); lia. }
    unfold SIZE_MAX in *. lia.
Qed.

End offsets.

Lemma data_pos_bijection_witness :
  bitmap.data_pos_xy (bitmap.mk (size.mk 3 2) [1%Z; 2%Z; 3%Z; 4%Z; 5%Z; 6%Z])
    (4 mod 3) (4 / 3) = 4.
Proof.
  destruct (data_pos_bijection
              (bitmap.mk (size.mk 3 2) [1%Z; 2%Z; 3%Z; 4%Z; 5%Z; 6%Z]))
    as (_ & _ & Hinv).
  - vm_compute. discriminate.
  - apply (Hinv 4). reflexivity.
Defined.

Lemma unchecked_access_next_row_witness :
  bitmap.call_xy true (bitmap.mk (size.mk 2 2) [1%Z; 2%Z; 3%Z; 4%Z])
    (wrap (0 + 2)) 0 = Throw out_of_range ∧
  bitmap.call_xy true (bitmap.mk (size.mk 2 2) [1%Z; 2%Z; 3%Z; 4%Z])
    (wrap (SIZE_MAX + 2)) 0 ≠ Throw out_of_range.
Proof.
  split.
  - apply (unchecked_access_next_row
             (bitmap.mk (size.mk 2 2) [1%Z; 2%Z; 3%Z; 4%Z]) 0 0).
    by vm_compute.
  - apply (unchecked_access_next_row
             (bitmap.mk (size.mk 2 2) [1%Z; 2%Z; 3%Z; 4%Z]) SIZE_MAX 0);
      by vm_compute.
Defined.

(** ** Element access *)

Section element_access.
Context {A : Type} `{!ValueType A}.
Implicit Types (g : bitmap.t A) (x y : N) (v e : A) (s : size.t) (l : list A).

Lemma call_in_range debug g x y :
  bitmap.well_formed g → x < bitmap.width g → y < bitmap.height g →
  bitmap.call debug g (point.mk x y) = Ok (N.to_nat (y * bitmap.width g + x)).
Proof.
  intros [Hlen Hfit] Hx Hy.
  pose proof (in_range_offset _ _ _ _ Hx Hy) as Hoff.
  unfold bitmap.call, bitmap.throw_if_out_of_range.
  rewrite (proj2 (is_point_in_bitmap_spec g (point.mk x y))) by done.
  assert (bitmap.do_point g (point.mk x y)
          = Ok (N.to_nat (y * bitmap.width g + x))) as Hdo.
  { unfold bitmap.do_point. simpl.
    rewrite (data_pos_in_range g x y Hfit Hx Hy).
    by rewrite decide_True by lia. }
  by destruct debug.
Qed.

Lemma well_formed_store g ref v :
  bitmap.well_formed g → bitmap.well_formed (bitmap.store g ref v).
Proof.
  unfold bitmap.well_formed, bitmap.store, bitmap.width, bitmap.height. simpl.
  by rewrite length_insert.
Qed.

Lemma get_lookup debug g x y e :
  bitmap.well_formed g → x < bitmap.width g → y < bitmap.height g →
  bitmap.data_ g !! N.to_nat (y * bitmap.width g + x) = Some e →
  bitmap.get debug g (point.mk x y) = Ok e.
Proof.
  intros Hg Hx Hy He. rewrite (get_in_range debug g x y Hg Hx Hy).
  by rewrite He.
Qed.

(** Assignment through [operator()] at a point in range, in either build,
    keeps the size of the grid, is read back at that point, and leaves the
    element at every other point in range as it was. *)
Theorem set_then_get debug g x y v :
  bitmap.well_formed g → x < bitmap.width g → y < bitmap.height g →
  ∃ g', bitmap.set debug g (point.mk x y) v = Ok g' ∧
    bitmap.size g' = bitmap.size g ∧
    bitmap.well_formed g' ∧
    bitmap.get debug g' (point.mk x y) = Ok v ∧
    (∀ x' y', x' < bitmap.width g → y' < bitmap.height g →
       (x', y') ≠ (x, y) →
       bitmap.get debug g' (point.mk x' y') = bitmap.get debug g (point.mk x' y')).
Proof.
  intros Hg Hx Hy. pose proof Hg as [Hlen Hfit].
  pose proof (in_range_offset _ _ _ _ Hx Hy) as Hoff.
  set (k := N.to_nat (y * bitmap.width g + x)).
  exists (bitmap.store g k v).
  pose proof (well_formed_store g k v Hg) as Hg'.
  split; [|split; [done|split; [done|split]]].
  - unfold bitmap.set. by rewrite (call_in_range debug g x y Hg Hx Hy).
  - apply get_lookup; [done..|].
    change (bitmap.width (bitmap.store g k v)) with (bitmap.width g).
    change (bitmap.data_ (bitmap.store g k v))
      with (<[k := v]> (bitmap.data_ g)).
    apply list_lookup_insert_eq. lia.
  - intros x' y' Hx' Hy' Hne.
    rewrite (get_in_range debug (bitmap.store g k v) x' y' Hg' Hx' Hy').
    rewrite (get_in_range debug g x' y' Hg Hx' Hy').
    change (bitmap.width (bitmap.store g k v)) with (bitmap.width g).
    change (bitmap.data_ (bitmap.store g k v))
      with (<[k := v]> (bitmap.data_ g)).
    rewrite list_lookup_insert_ne; [done|].
    unfold k. intros Heq.
    destruct (offset_div_mod (bitmap.width g) x y Hx) as [Hd Hm].
    destruct (offset_div_mod (bitmap.width g) x' y' Hx') as [Hd' Hm'].
    assert (y * bitmap.width g + x = y' * bitmap.width g + x') as Hk by lia.
    rewrite Hk in Hd, Hm. apply Hne. f_equal; congruence.
Qed.

(** A grid constructed from a size of an area of at most [max_size()] and
    a value reads that value at every point in range, in either build; the
    constructor from a width and a height builds the same grid. *)
Theorem ctor_fill_get s v :
  size.width s * size.height s ≤ max_size →
  ∃ g, bitmap.ctor_fill s v = Ok g ∧
    bitmap.ctor_wh (size.width s) (size.height s) v = Ok g ∧
    bitmap.size g = s ∧
    bitmap.well_formed g ∧
    ∀ debug x y, x < size.width s → y < size.height s →
      bitmap.get debug g (point.mk x y) = Ok v.
Proof.
  intros Hmax. pose proof (max_size_le_SIZE_MAX _ Hmax) as Hfit.
  assert (size.point_count s ≤ max_size) as Hcount.
  { unfold size.point_count. by rewrite wrap_small. }
  exists (bitmap.mk s (replicate (N.to_nat (size.point_count s)) v)).
  split; [apply ctor_fill_positive; [apply is_positive_true | done]|].
  split.
  { destruct s as [w h].
    apply (ctor_fill_positive (size.mk w h)); [apply is_positive_true | done]. }
  split; [done|]. split; [by apply well_formed_fill|].
  intros debug x y Hx Hy. by apply get_fill.
Qed.


(** On a grid holding [width * height] elements, [is_point_in_bitmap] tells
    what [operator()] does with [DEBUG] defined: it returns a reference when
    the point is in the bitmap and throws [std::out_of_range] when it is
    not. *)
Theorem is_point_in_bitmap_call g p :
  bitmap.well_formed g →
  (bitmap.is_point_in_bitmap g p = true ↔ ∃ ref, bitmap.call true g p = Ok ref) ∧
  (bitmap.is_point_in_bitmap g p = false ↔
   bitmap.call true g p = Throw out_of_range).
Proof.
  intros Hg. destruct p as [x y].
  destruct (bitmap.is_point_in_bitmap g (point.mk x y)) eqn:Hin.
  - apply is_point_in_bitmap_spec in Hin as [Hx Hy]. simpl in Hx, Hy.
    rewrite (call_in_range true g x y Hg Hx Hy).
    split; split; try done. by eexists.
  - assert (bitmap.call true g (point.mk x y) = Throw out_of_range) as ->.
    { unfold bitmap.call, bitmap.throw_if_out_of_range. by rewrite Hin. }
    split; split; try done. by intros [ref Href].
Qed.

End element_access.

Lemma set_then_get_witness :
  ∃ g', bitmap.set true (bitmap.mk (size.mk 2 2) [1%Z; 2%Z; 3%Z; 4%Z])
          (point.mk 1 0) 9%Z = Ok g' ∧
    bitmap.get true g' (point.mk 1 0) = Ok 9%Z.
Proof.
  destruct (set_then_get true (bitmap.mk (size.mk 2 2) [1%Z; 2%Z; 3%Z; 4%Z])
              1 0 9%Z) as (g' & Hset & _ & _ & Hget & _).
  - split; [reflexivity|]. vm_compute. discriminate.
  - reflexivity.
  - reflexivity.
  - exists g'. by split.
Defined.

Lemma ctor_fill_get_witness :
  ∃ g, bitmap.ctor_fill (size.mk 3 2) 7%Z = Ok g ∧
       bitmap.get true g (point.mk 2 1) = Ok 7%Z.
Proof.
  destruct (ctor_fill_get (size.mk 3 2) 7%Z) as (g & Hg & _ & _ & _ & Hget).
  - vm_compute. discriminate.
  - exists g. split; [done|]. by apply Hget.
Defined.


Lemma is_point_in_bitmap_call_witness :
  bitmap.is_point_in_bitmap (bitmap.mk (size.mk 2 2) [1%Z; 2%Z; 3%Z; 4%Z])
    (point.mk 2 0) = false ↔
  bitmap.call true (bitmap.mk (size.mk 2 2) [1%Z; 2%Z; 3%Z; 4%Z])
    (point.mk 2 0) = Throw out_of_range.
Proof.
  apply (is_point_in_bitmap_call
           (bitmap.mk (size.mk 2 2) [1%Z; 2%Z; 3%Z; 4%Z]) (point.mk 2 0)).
  split; [reflexivity|]. vm_compute. discriminate.
Defined.

(** ** More on [resize] *)

Section resize_more.
Context {A : Type} `{!ValueType A}.
Implicit Types (g : bitmap.t A) (s : size.t) (v : A) (d : list A) (n m i : nat).

Lemma vector_resize_same d v : bitmap.vector_resize d (length d) v = d.
Proof.
  unfold bitmap.vector_resize.
  rewrite firstn_all, Nat.sub_diag. apply app_nil_r.
Qed.

Lemma vector_resize_nil n v : bitmap.vector_resize [] n v = replicate n v.
Proof.
  unfold bitmap.vector_resize. rewrite take_nil. simpl.
  by rewrite Nat.sub_0_r.
Qed.

(** Resizing a grid to the size it has changes nothing, whatever the fill
    value. *)
Theorem resize_same_size g v :
  bitmap.storage_inv g → bitmap.resize g (bitmap.size g) v = Ok g.
Proof.
  unfold bitmap.storage_inv. intros Hlen.
  change (bitmap.point_count g) with (size.point_count (bitmap.size g)) in Hlen.
  unfold bitmap.resize.
  rewrite (throw_if_size_is_negative_positive _ (is_positive_true _)). simpl.
  unfold bitmap.vector_resize_to. rewrite decide_False by lia. simpl.
  rewrite <- Hlen, Nat2N.id, vector_resize_same. by destruct g.
Qed.

(** Resizing a default-constructed grid gives the grid that the constructor
    from a size and a value gives, also through the overload taking a width
    and a height. *)
Theorem resize_default s v :
  bitmap.resize bitmap.ctor_default s v = bitmap.ctor_fill s v ∧
  bitmap.resize_wh bitmap.ctor_default (size.width s) (size.height s) v
  = bitmap.ctor_fill s v.
Proof.
  assert (bitmap.resize bitmap.ctor_default s v = bitmap.ctor_fill s v) as Hr.
  { unfold bitmap.resize, bitmap.ctor_fill.
    rewrite (throw_if_size_is_negative_positive _ (is_positive_true s)).
    unfold bitmap.vector_resize_to, bitmap.vector_fill. simpl.
    destruct (decide (max_size < size.point_count s)) as [Hlong|Hfits].
    - by rewrite decide_True by lia.
    - rewrite decide_False by lia. simpl. by rewrite vector_resize_nil. }
  split; [done|]. by destruct s.
Qed.

(** Two resizes in a row, to [s1] with [v1] and then to [s2] with [v2]: the
    elements below each of the three counts (old, [s1], [s2]) are the old
    ones, the elements that the first resize appended and the second kept
    equal [v1], and the elements from the count of [s1] on equal [v2]. What
    the first resize cut off does not come back. Both counts are at most
    [max_size()], so that both calls complete. *)
Theorem resize_twice g s1 v1 s2 v2 :
  size.point_count s1 ≤ max_size → size.point_count s2 ≤ max_size →
  bitmap.storage_inv g →
  ∃ g1 g2,
    bitmap.resize g s1 v1 = Ok g1 ∧ bitmap.resize g1 s2 v2 = Ok g2 ∧
    bitmap.size g2 = s2 ∧ bitmap.storage_inv g2 ∧
    (∀ k, k < bitmap.point_count g → k < size.point_count s1 →
          k < size.point_count s2 →
          bitmap.data_ g2 !! N.to_nat k = bitmap.data_ g !! N.to_nat k) ∧
    (∀ k, bitmap.point_count g ≤ k → k < size.point_count s1 →
          k < size.point_count s2 →
          bitmap.data_ g2 !! N.to_nat k = Some v1) ∧
    (∀ k, size.point_count s1 ≤ k → k < size.point_count s2 →
          bitmap.data_ g2 !! N.to_nat k = Some v2).
Proof.
  unfold bitmap.storage_inv. intros Hmax1 Hmax2 Hlen.
  eexists _, _.
  split; [apply resize_positive; [apply is_positive_true | done]|].
  split; [apply resize_positive; [apply is_positive_true | done]|]. simpl.
  split; [done|]. split.
  { rewrite length_vector_resize. by rewrite N2Nat.id. }
  split; [|split].
  - intros k Hk H1 H2.
    rewrite vector_resize_lookup_old
      by (rewrite ?length_vector_resize; lia).
    apply vector_resize_lookup_old; lia.
  - intros k Hk H1 H2.
    rewrite vector_resize_lookup_old
      by (rewrite ?length_vector_resize; lia).
    apply vector_resize_lookup_new; lia.
  - intros k H1 H2.
    apply vector_resize_lookup_new; rewrite ?length_vector_resize; lia.
Qed.

(** [resize] keeps offsets, not coordinates: the element that was at the
    point [(x, y)], at offset [k = y * width + x], is afterwards at the
    point [(k mod width', k / width')] of the new size, when [k] is below the
    new number of points, itself at most [max_size()]. *)
Theorem resize_moves_points debug g s v x y :
  bitmap.well_formed g →
  size.width s * size.height s ≤ max_size →
  x < bitmap.width g → y < bitmap.height g →
  y * bitmap.width g + x < size.width s * size.height s →
  ∃ g', bitmap.resize g s v = Ok g' ∧
    bitmap.well_formed g' ∧
    bitmap.get debug g'
      (point.mk ((y * bitmap.width g + x) mod size.width s)
                ((y * bitmap.width g + x) / size.width s))
    = bitmap.get debug g (point.mk x y).
Proof.
  intros Hg Hmax Hx Hy Hk. pose proof Hg as [Hlen Hgfit].
  pose proof (max_size_le_SIZE_MAX _ Hmax) as Hfit.
  pose proof (in_range_offset _ _ _ _ Hx Hy) as Hoff.
  set (k := y * bitmap.width g + x) in *.
  assert (size.point_count s = size.width s * size.height s) as Hpc
    by (unfold size.point_count; by apply wrap_small).
  eexists. split; [apply resize_positive; [apply is_positive_true | lia]|].
  set (g' := bitmap.mk s _).
  assert (bitmap.well_formed g') as Hg'.
  { split; [|done]. unfold g'. simpl. rewrite length_vector_resize.
    unfold bitmap.width, bitmap.height. simpl. lia. }
  split; [done|].
  destruct (div_mod_in_range _ _ _ Hk) as [Hm Hd].
  rewrite (get_in_range debug g' _ _ Hg' Hm Hd).
  rewrite (get_in_range debug g x y Hg Hx Hy).
  change (bitmap.width g') with (size.width s).
  rewrite offset_of_div_mod by lia.
  unfold g'. simpl. fold k.
  rewrite vector_resize_lookup_old; [done | lia | lia].
Qed.

End resize_more.

Lemma resize_same_size_witness :
  bitmap.resize (bitmap.mk (size.mk 2 1) [7%Z; 8%Z]) (size.mk 2 1) 0%Z
  = Ok (bitmap.mk (size.mk 2 1) [7%Z; 8%Z]).
Proof.
  apply (resize_same_size (bitmap.mk (size.mk 2 1) [7%Z; 8%Z]) 0%Z).
  reflexivity.
Defined.

Lemma resize_twice_witness :
  ∃ g1 g2,
    bitmap.resize (bitmap.mk (size.mk 3 1) [7%Z; 8%Z; 9%Z]) (size.mk 1 1) 0%Z
    = Ok g1 ∧
    bitmap.resize g1 (size.mk 3 1) 5%Z = Ok g2 ∧
    bitmap.data_ g2 !! N.to_nat 2 = Some 5%Z.
Proof.
  destruct (resize_twice (bitmap.mk (size.mk 3 1) [7%Z; 8%Z; 9%Z])
              (size.mk 1 1) 0%Z (size.mk 3 1) 5%Z)
    as (g1 & g2 & H1 & H2 & _ & _ & _ & _ & Hnew).
  - by vm_compute.
  - by vm_compute.
  - reflexivity.
  - exists g1, g2. split; [done|]. split; [done|].
    apply Hnew; vm_compute; [discriminate | reflexivity].
Defined.

Lemma resize_moves_points_witness :
  ∃ g', bitmap.resize (bitmap.mk (size.mk 2 2) [1%Z; 2%Z; 3%Z; 4%Z])
          (size.mk 3 2) 0%Z = Ok g' ∧
    bitmap.get true g' (point.mk ((1 * 2 + 0) mod 3) ((1 * 2 + 0) / 3))
    = bitmap.get true (bitmap.mk (size.mk 2 2) [1%Z; 2%Z; 3%Z; 4%Z])
        (point.mk 0 1).
Proof.
  destruct (resize_moves_points true
              (bitmap.mk (size.mk 2 2) [1%Z; 2%Z; 3%Z; 4%Z])
              (size.mk 3 2) 0%Z 0 1) as (g' & Hr & _ & Hget).
  - split; [reflexivity|]. vm_compute. discriminate.
  - vm_compute. discriminate.
  - reflexivity.
  - reflexivity.
  - reflexivity.
  - exists g'. by split.
Defined.

(** ** More on [subbitmap] *)

Section subbitmap_more.
Context {A : Type} `{!ValueType A}.
Implicit Types (g res : bitmap.t A) (v : A).

(** What [subbitmap] copies. On a grid holding [width * height] elements,
    for a rectangle of an area of at most [max_size()] whose origin lies
    inside the grid,
    [subbitmap] returns a grid of the size of the rectangle whose element
    [(i, j)] is the element [(i, j)] of the source (not
    [(rect.x() + i, rect.y() + j)]) when [i < x_end] and [j < y_end], and the
    fill value otherwise; the origin of the rectangle enters through [x_end]
    and [y_end] only. *)
Theorem subbitmap_clipped_copy g r v :
  bitmap.well_formed g →
  rect.width r * rect.height r ≤ max_size →
  rect.x r < bitmap.width g → rect.y r < bitmap.height g →
  ∃ res, bitmap.subbitmap g r v = Ok res ∧
    bitmap.size res = rect.size r ∧
    bitmap.well_formed res ∧
    ∀ i j, i < rect.width r → j < rect.height r →
      bitmap.get true res (point.mk i j) =
      if decide (i < N.min (rect.width r) (bitmap.width g - rect.x r) ∧
                 j < N.min (rect.height r) (bitmap.height g - rect.y r))
      then bitmap.get true g (point.mk i j)
      else Ok v.
Proof. apply subbitmap_contents. Qed.

(** On a grid holding [width * height] elements [subbitmap] returns, for
    every rectangle of an area of at most [max_size()], wherever its origin
    lies: the result has the size of the rectangle and holds that many
    elements. When the number of points of the rectangle exceeds
    [max_size()], the constructor of the result throws [std::length_error]. *)
Theorem subbitmap_returns g r v :
  bitmap.well_formed g →
  (rect.width r * rect.height r ≤ max_size →
   ∃ res, bitmap.subbitmap g r v = Ok res ∧
     bitmap.size res = rect.size r ∧
     bitmap.well_formed res) ∧
  (max_size < size.point_count (rect.size r) →
   bitmap.subbitmap g r v = Throw length_error).
Proof.
  intros Hg. split; [|apply subbitmap_too_long].
  intros Hmax. pose proof (max_size_le_SIZE_MAX _ Hmax) as Hfit.
  assert (size.point_count (rect.size r) ≤ max_size) as Hcount.
  { unfold size.point_count. by rewrite wrap_small. }
  destruct (N.le_gt_cases (bitmap.width g) (rect.x r)) as [Hx|Hx].
  { rewrite (subbitmap_outside g r v Hcount) by (by left).
    eexists. split; [done|]. split; [done|]. by apply well_formed_fill. }
  destruct (N.le_gt_cases (bitmap.height g) (rect.y r)) as [Hy|Hy].
  { rewrite (subbitmap_outside g r v Hcount) by (by right).
    eexists. split; [done|]. split; [done|]. by apply well_formed_fill. }
  destruct (subbitmap_contents g r v Hg Hmax Hx Hy)
    as (res & Hres & Hsize & Hwf & _).
  by exists res.
Qed.

(** The rectangle at the origin with the size of the grid: [subbitmap]
    returns a copy of the grid (whose vector holds at most [max_size()]
    elements, like every vector). *)
Theorem subbitmap_whole g v :
  bitmap.well_formed g →
  bitmap.width g * bitmap.height g ≤ max_size →
  bitmap.subbitmap g (rect.mk (point.mk 0 0) (bitmap.size g)) v = Ok g.
Proof.
  intros Hg Hmax. pose proof Hg as [Hlen Hfit].
  set (r := rect.mk (point.mk 0 0) (bitmap.size g)).
  destruct (decide (bitmap.width g = 0 ∨ bitmap.height g = 0)) as [Hempty|Hne].
  - assert (size.point_count (rect.size r) = 0) as Hzero.
    { unfold size.point_count, r. simpl.
      change (size.width (bitmap.size g)) with (bitmap.width g).
      change (size.height (bitmap.size g)) with (bitmap.height g).
      rewrite wrap_small by done. lia. }
    rewrite (subbitmap_outside g r v)
      by (rewrite ?Hzero; unfold r, rect.x, rect.y; simpl; lia).
    rewrite Hzero.
    assert (bitmap.data_ g = []) as Hnil by (apply nil_length_inv; lia).
    destruct g as [sg dg]. simpl in *. by rewrite Hnil.
  - destruct (subbitmap_contents g r v Hg)
      as (res & -> & Hsize & Hres & Hget).
    { done. }
    { unfold r, rect.x. simpl. lia. }
    { unfold r, rect.y. simpl. lia. }
    f_equal. destruct Hres as [Hrlen _].
    assert (bitmap.size_ res = bitmap.size_ g) as Hsz by exact Hsize.
    assert (bitmap.width res = bitmap.width g) as Hw
      by (unfold bitmap.width; by rewrite Hsz).
    assert (bitmap.height res = bitmap.height g) as Hh
      by (unfold bitmap.height; by rewrite Hsz).
    assert (bitmap.data_ res = bitmap.data_ g) as Hdata.
    { apply list_eq. intros idx.
      destruct (decide (idx < length (bitmap.data_ g))%nat) as [Hidx|Hidx].
      - assert (N.of_nat idx < bitmap.width g * bitmap.height g) as Hk by lia.
        destruct (div_mod_in_range _ _ _ Hk) as [Hm Hd].
        specialize (Hget _ _ Hm Hd).
        rewrite decide_True in Hget
          by (unfold r, rect.x, rect.y, rect.width, rect.height; simpl;
              change (size.width (bitmap.size g)) with (bitmap.width g);
              change (size.height (bitmap.size g)) with (bitmap.height g);
              lia).
        assert (bitmap.well_formed res) as Hres by (split; [done | lia]).
        rewrite (get_in_range true res _ _ Hres) in Hget by lia.
        rewrite (get_in_range true g _ _ Hg Hm Hd) in Hget.
        rewrite Hw, offset_of_div_mod, Nat2N.id in Hget by lia.
        destruct (lookup_lt_is_Some_2 (bitmap.data_ res) idx) as [a Ha];
          [lia|].
        destruct (lookup_lt_is_Some_2 (bitmap.data_ g) idx) as [b Hb];
          [lia|].
        rewrite Ha, Hb in Hget. rewrite Ha, Hb. congruence.
      - rewrite !lookup_ge_None_2 by lia. done. }
    destruct res as [sr dr], g as [sg dg]. simpl in *. congruence.
Qed.

(** A rectangle whose area wraps around to zero, with its origin inside a
    grid: the result has no storage and the first row copied is written past
    its end, so the behaviour of [subbitmap] is undefined. *)
Theorem subbitmap_area_overflow g r v :
  bitmap.well_formed g →
  rect.x r < bitmap.width g → rect.y r < bitmap.height g →
  1 ≤ rect.width r → 1 ≤ rect.height r →
  size.point_count (rect.size r) = 0 →
  bitmap.subbitmap g r v = Undefined.
Proof.
  intros [Hlen Hfit] Hx Hy Hrw Hrh Hzero.
  assert (bitmap.width g ≤ SIZE_MAX) as Hw by nia.
  assert (bitmap.height g ≤ SIZE_MAX) as Hh by nia.
  unfold bitmap.subbitmap.
  rewrite (ctor_fill_positive _ v (is_positive_true (rect.size r)))
    by (rewrite Hzero; lia).
  rewrite Hzero.
  change (Ok ?b ≫= ?f) with (f b). cbv beta.
  assert ((bitmap.width g <=? rect.x r) || (bitmap.height g <=? rect.y r) = false)
    as ->.
  { apply orb_false_iff. split; apply N.leb_gt; lia. }
  rewrite !wsub_small by lia.
  assert (∃ count, N.to_nat (N.min (rect.height r)
                               (bitmap.height g - rect.y r)) = S count)
    as [count ->] by (exists (pred (N.to_nat (N.min (rect.height r)
                               (bitmap.height g - rect.y r)))); lia).
  destruct (lookup_lt_is_Some_2 (bitmap.data_ g) 0) as [e He]; [nia|].
  cbv zeta. cbn [bitmap.copy_rows].
  rewrite !N.mul_0_l. change (wrap 0) with 0.
  unfold bitmap.ptr_add. rewrite !decide_True by lia.
  change (Ok ?b ≫= ?f) with (f b). cbv beta.
  assert (∃ n, N.to_nat (N.min (rect.width r)
                           (bitmap.width g - rect.x r)) = S n)
    as [n ->] by (exists (pred (N.to_nat (N.min (rect.width r)
                               (bitmap.width g - rect.x r)))); lia).
  cbn [bitmap.std_copy]. change (N.to_nat 0) with 0%nat.
  change (Ok ?b ≫= ?f) with (f b). cbv beta. by rewrite He.
Qed.

End subbitmap_more.

Lemma subbitmap_clipped_copy_witness :
  ∃ res,
    bitmap.subbitmap (bitmap.mk (size.mk 3 2) [0%Z; 5%Z; 0%Z; 0%Z; 0%Z; 9%Z])
      (rect.mk (point.mk 1 0) (size.mk 3 2)) (-1)%Z = Ok res ∧
    bitmap.get true res (point.mk 1 0)
    = bitmap.get true (bitmap.mk (size.mk 3 2) [0%Z; 5%Z; 0%Z; 0%Z; 0%Z; 9%Z])
        (point.mk 1 0) ∧
    bitmap.get true res (point.mk 2 0) = Ok (-1)%Z.
Proof.
  destruct (subbitmap_clipped_copy
              (bitmap.mk (size.mk 3 2) [0%Z; 5%Z; 0%Z; 0%Z; 0%Z; 9%Z])
              (rect.mk (point.mk 1 0) (size.mk 3 2)) (-1)%Z)
    as (res & Hres & _ & _ & Hget).
  - split; [reflexivity|]. vm_compute. discriminate.
  - vm_compute. discriminate.
  - reflexivity.
  - reflexivity.
  - exists res. split; [done|]. split.
    + by rewrite (Hget 1 0).
    + by rewrite (Hget 2 0).
Defined.

Lemma subbitmap_returns_witness :
  ∃ res,
    bitmap.subbitmap (bitmap.mk (size.mk 3 2) [0%Z; 5%Z; 0%Z; 0%Z; 0%Z; 9%Z])
      (rect.mk (point.mk 2 1) (size.mk 4 4)) (-1)%Z = Ok res ∧
    bitmap.size res = size.mk 4 4 ∧
    bitmap.well_formed res.
Proof.
  apply (subbitmap_returns
           (bitmap.mk (size.mk 3 2) [0%Z; 5%Z; 0%Z; 0%Z; 0%Z; 9%Z])
           (rect.mk (point.mk 2 1) (size.mk 4 4)) (-1)%Z).
  - split; [reflexivity|]. vm_compute. discriminate.
  - vm_compute. discriminate.
Defined.

Lemma subbitmap_whole_witness :
  bitmap.subbitmap (bitmap.mk (size.mk 3 2) [0%Z; 5%Z; 0%Z; 0%Z; 0%Z; 9%Z])
    (rect.mk (point.mk 0 0) (size.mk 3 2)) (-1)%Z
  = Ok (bitmap.mk (size.mk 3 2) [0%Z; 5%Z; 0%Z; 0%Z; 0%Z; 9%Z]).
Proof.
  apply (subbitmap_whole
           (bitmap.mk (size.mk 3 2) [0%Z; 5%Z; 0%Z; 0%Z; 0%Z; 9%Z]) (-1)%Z).
  - split; [reflexivity|]. vm_compute. discriminate.
  - vm_compute. discriminate.
Defined.

Lemma subbitmap_area_overflow_witness :
  bitmap.subbitmap (bitmap.mk (size.mk 1 1) [4%Z])
    (rect.mk (point.mk 0 0) (size.mk (2 ^ 32) (2 ^ 32))) 0%Z = Undefined.
Proof.
  apply (subbitmap_area_overflow (bitmap.mk (size.mk 1 1) [4%Z])
           (rect.mk (point.mk 0 0) (size.mk (2 ^ 32) (2 ^ 32))) 0%Z).
  - split; [reflexivity|]. vm_compute. discriminate.
  - reflexivity.
  - reflexivity.
  - vm_compute. discriminate.
  - vm_compute. discriminate.
  - reflexivity.
Defined.

(** ** Reverse iteration *)

Section reverse_iteration.
Context {A : Type} `{!ValueType A}.
Implicit Types (g : bitmap.t A).

Lemma rcollect_take g (fuel it : nat) :
  (it ≤ length (bitmap.data_ g))%nat → (it ≤ fuel)%nat →
  bitmap.rcollect g fuel it 0 = Some (reverse (take it (bitmap.data_ g))).
Proof.
  revert it. induction fuel as [|fuel IH]; intros it Hlen Hfuel.
  - assert (it = 0%nat) as -> by lia. done.
  - destruct it as [|it]; [done|]. simpl.
    destruct (lookup_lt_is_Some_2 (bitmap.data_ g) it) as [e He]; [lia|].
    rewrite He. simpl. rewrite IH by lia. simpl.
    by rewrite (take_S_r _ _ _ He), reverse_snoc.
Qed.

(** A traversal from [rbegin()] to [rend()] yields all the elements of the
    grid, in the reverse of the order of the traversal from [begin()] to
    [end()]. *)
Theorem rtraverse_reverse g :
  bitmap.rtraverse g = Some (reverse (bitmap.data_ g)) ∧
  bitmap.rtraverse g = reverse <$> bitmap.traverse g.
Proof.
  assert (bitmap.rtraverse g = Some (reverse (bitmap.data_ g))) as Hr.
  { unfold bitmap.rtraverse, bitmap.rbegin, bitmap.rend.
    rewrite rcollect_take by done. by rewrite firstn_all. }
  split; [done|]. by rewrite Hr, traverse_data.
Qed.

End reverse_iteration.

(** ** The copy constructor *)

Section copy.
Context {A : Type} `{!ValueType A}.
Implicit Types (h : heap A) (b other : mem.t) (v : A).

(** The copy of a live grid has the size and the elements of the original,
    which stays as it was, in a new buffer: assigning to an element of one of
    the two afterwards leaves the other as it was. *)
Theorem ctor_copy_independent h other h' b :
  is_Some (h !! mem.data_ other) →
  mem.ctor_copy h other = (h', b) →
  mem.view h' b = mem.view h other ∧
  mem.view h' other = mem.view h other ∧
  mem.data_ b ≠ mem.data_ other ∧
  (∀ debug pt e h'',
     mem.set debug h' b pt e = Ok h'' →
     mem.view h'' other = mem.view h other) ∧
  (∀ debug pt e h'',
     mem.set debug h' other pt e = Ok h'' →
     mem.view h'' b = mem.view h other).
Proof.
  intros [d Hd]. unfold mem.ctor_copy, mem.alloc. rewrite Hd. simpl.
  intros [= <- <-]. simpl.
  assert (fresh (dom h) ≠ mem.data_ other) as Hne.
  { intros Heq. apply (is_fresh (dom h)). rewrite Heq.
    apply elem_of_dom. by eexists. }
  assert (mem.view (<[fresh (dom h) := d]> h)
            (mem.mk (mem.size_ other) (fresh (dom h))) = mem.view h other)
    as Hcopy.
  { unfold mem.view. simpl. by rewrite lookup_insert_eq, Hd. }
  assert (mem.view (<[fresh (dom h) := d]> h) other = mem.view h other)
    as Horig.
  { apply mem_view_frame. by rewrite lookup_insert_ne. }
  split; [done|]. split; [done|]. split; [done|]. split.
  - intros debug pt e h'' Hset. rewrite <- Horig.
    apply mem_view_frame.
    apply (mem_set_frame _ _ _ _ _ _ _ Hset). simpl. congruence.
  - intros debug pt e h'' Hset. rewrite <- Hcopy.
    apply mem_view_frame.
    by apply (mem_set_frame _ _ _ _ _ _ _ Hset).
Qed.

End copy.

Lemma ctor_copy_independent_witness :
  ∃ h' b,
    mem.ctor_copy {[1%positive := [7%Z; 8%Z]]} (mem.mk (size.mk 2 1) 1%positive)
    = (h', b) ∧
    mem.view h' b = bitmap.mk (size.mk 2 1) [7%Z; 8%Z] ∧
    mem.data_ b ≠ 1%positive.
Proof.
  eexists _, _. split; [vm_compute; reflexivity|].
  destruct (ctor_copy_independent
              {[1%positive := [7%Z; 8%Z]]} (mem.mk (size.mk 2 1) 1%positive)
              _ _ (ltac:(by eexists)) (ltac:(vm_compute; reflexivity)))
    as (Hview & _ & Hne & _).
  split; [exact Hview | exact Hne].
Defined.

(** ** Empty grids and [data()] *)

Section empty.
Context {A : Type} `{!ValueType A}.
Implicit Types (g : bitmap.t A) (p : point.t) (h : heap A) (b : mem.t).

(** A grid of width or height zero has no point in range: with [DEBUG]
    defined [operator()] throws [std::out_of_range] at every point; the
    storage is empty, so that a traversal yields nothing and, without
    [DEBUG], [operator()] is undefined at every point. *)
Theorem empty_grid_access g p :
  bitmap.width g = 0 ∨ bitmap.height g = 0 →
  bitmap.call true g p = Throw out_of_range ∧
  (bitmap.storage_inv g →
   bitmap.data_ g = [] ∧
   bitmap.traverse g = Some [] ∧
   bitmap.call false g p = Undefined).
Proof.
  intros Hempty. split.
  - apply call_debug_throws. lia.
  - unfold bitmap.storage_inv, bitmap.point_count. intros Hlen.
    assert (bitmap.width g * bitmap.height g = 0) as Hzero by lia.
    rewrite Hzero in Hlen. change (wrap 0) with 0 in Hlen.
    assert (bitmap.data_ g = []) as Hnil by (apply nil_length_inv; lia).
    split; [done|]. split.
    + by rewrite traverse_data, Hnil.
    + unfold bitmap.call, bitmap.do_point. by rewrite Hnil.
Qed.

(** [data()] of a live grid holding [width * height] elements is the null
    pointer when the grid has no points, and otherwise points to the element
    that [operator()] gives at [(0, 0)]. *)
Theorem data_points_to_origin debug h b :
  is_Some (h !! mem.data_ b) →
  bitmap.well_formed (mem.view h b) →
  (mem.width b * mem.height b = 0 → mem.data h b = mem.null) ∧
  (1 ≤ mem.width b → 1 ≤ mem.height b →
   mem.load h (mem.data h b) = bitmap.get debug (mem.view h b) (point.mk 0 0)).
Proof.
  intros [d Hd] Hwf. pose proof Hwf as [Hlen Hfit].
  unfold mem.view in Hlen, Hfit. rewrite Hd in Hlen, Hfit.
  unfold bitmap.width, bitmap.height in Hlen, Hfit. simpl in Hlen, Hfit.
  unfold mem.width, mem.height. split.
  - intros Hzero. unfold mem.data. rewrite Hd.
    destruct d; [done | simpl in Hlen; lia].
  - intros Hw Hh.
    rewrite (get_in_range debug (mem.view h b) 0 0 Hwf)
      by (unfold mem.view, bitmap.width, bitmap.height; simpl; lia).
    unfold mem.load, mem.data, mem.buffer. rewrite Hd.
    destruct d as [|e d]; [simpl in Hlen; nia|]. simpl.
    unfold mem.view. by rewrite Hd.
Qed.

End empty.

Lemma empty_grid_access_witness :
  bitmap.call true (bitmap.ctor_default (A:=Z)) (point.mk 0 0)
  = Throw out_of_range ∧
  bitmap.call false (bitmap.ctor_default (A:=Z)) (point.mk 0 0) = Undefined.
Proof.
  destruct (empty_grid_access (bitmap.ctor_default (A:=Z)) (point.mk 0 0))
    as (Hthrow & Hrest).
  - left. reflexivity.
  - split; [exact Hthrow|]. apply Hrest. reflexivity.
Defined.

Lemma data_points_to_origin_witness :
  mem.load {[1%positive := [7%Z; 8%Z]]}
    (mem.data {[1%positive := [7%Z; 8%Z]]} (mem.mk (size.mk 2 1) 1%positive))
  = bitmap.get true
      (mem.view {[1%positive := [7%Z; 8%Z]]} (mem.mk (size.mk 2 1) 1%positive))
      (point.mk 0 0).
Proof.
  apply (data_points_to_origin true {[1%positive := [7%Z; 8%Z]]}
           (mem.mk (size.mk 2 1) 1%positive)).
  - by eexists.
  - split; [reflexivity|]. vm_compute. discriminate.
  - vm_compute. discriminate.
  - vm_compute. discriminate.
Defined.
